(** * Orchestration core of the AI financial multi-agent platform

    A shallow embedding of the Python orchestration code and the proofs of
    its specification:

    - [agent_models.py]    : [ApprovalRequest], [WorkflowState]
    - [workflow_engine.py] : [WorkflowDefinition], [WorkflowEngine]
    - [orchestrator.py]    : [AgentOrchestrator]
    - [context_manager.py] : [ContextManager]

    Python dictionaries are finite maps ([gmap]) where only lookups matter
    and association lists where the iteration order is observed.  Mutable
    objects are values threaded through the functions that mutate them.
    Everything the code does to the outside (reading the clock, drawing a
    uuid, awaiting an agent, sleeping) goes through an explicit [World]. *)

From stdpp Require Import gmap strings list fin_maps pretty relations.

Set Warnings "-register-all".

Local Open Scope string_scope.
Local Open Scope Z_scope.

(** ** Python values *)

(** [datetime] values, counted in microseconds from [datetime.min], the
    first instant of the year 1. *)
Abbreviation Time := Z (only parsing).

Definition minutes (m : Z) : Z := m * 60000000.
Definition seconds (s : Z) : Z := s * 1000000.

(** [datetime.max], the last microsecond of the year 9999. *)
Definition datetime_max : Z := 315537897599999999.

(** Whether the integer is a [datetime]. *)
Definition datetime_ok (t : Z) : bool := Z.leb 0 t && Z.leb t datetime_max.

(** Whether [timedelta(minutes=m)] exists: its days, [m] minutes rounded
    down, are at most 999999999 in magnitude. *)
Definition timedelta_ok (m : Z) : bool := Z.leb (Z.abs (m / 1440)) 999999999.

(** The values that travel in the result dictionaries.  [VSeconds us] is the
    float returned by [timedelta.total_seconds()], kept as its exact number
    of microseconds. *)
Inductive PyVal :=
  | VNone
  | VBool (b : bool)
  | VInt (n : Z)
  | VStr (s : string)
  | VSeconds (us : Z)
  | VList (l : list PyVal)
  | VDict (d : gmap string PyVal).

Abbreviation Dict := (gmap string PyVal).

(** [bool(v)]. *)
Definition truthy (v : PyVal) : bool :=
  match v with
  | VNone => false
  | VBool b => b
  | VInt n => negb (Z.eqb n 0)
  | VStr s => negb (String.eqb s "")
  | VSeconds us => negb (Z.eqb us 0)
  | VList l => match l with [] => false | _ => true end
  | VDict d => match map_to_list d with [] => false | _ => true end
  end.

(** [d.get(k, default)]. *)
Definition dict_get (d : Dict) (k : string) (default : PyVal) : PyVal :=
  match d !! k with Some v => v | None => default end.

(** [x or y] on an optional integer: [None] and [0] are falsy. *)
Definition int_or (x : option Z) (y : Z) : Z :=
  match x with
  | Some n => if Z.eqb n 0 then y else n
  | None => y
  end.

(** [repr(s)] of a plain string without quotes or escapes, as in the
    message of a [KeyError]. *)
Definition quoted (s : string) : string := "'" +:+ s +:+ "'".

(** ** Exceptions *)

(** A computation either returns or raises; the payload of [Raised] is
    [str(e)]. *)
Inductive Outcome (A : Type) :=
  | Returned (a : A)
  | Raised (e : string).
Arguments Returned {A} a.
Arguments Raised {A} e.

#[global] Instance Outcome_ret : MRet Outcome := λ A a, Returned a.
#[global] Instance Outcome_bind : MBind Outcome := λ A B k m,
  match m with
  | Returned a => k a
  | Raised e => Raised e
  end.

(** ** The outside world *)

(** A call [workflow_state.approve_request(...)] made by another task,
    together with the two clock readings the call makes. *)
Record ApproveCall := mkApproveCall {
  call_request_id : string;
  call_approver : string;
  call_approved : bool;
  call_comments : option string;
  call_stamp : Time;
  call_updated : Time;
}.

(** What the code asks of its environment.  [sleep] is
    [await asyncio.sleep(1)]: the task is suspended and the decisions that
    other tasks record on the workflow meanwhile are handed back.  The last
    two fields are [str()] of the [OverflowError] that the [datetime]
    library raises: for [timedelta(minutes=m)] out of range, and for a sum
    [now + timedelta(minutes=m)] that is not a [datetime]. *)
Class Runtime := {
  World : Type;
  utcnow : World → Time * World;
  uuid4 : World → string * World;
  sleep : World → list ApproveCall * World;
  timedelta_overflow : Z → string;
  datetime_overflow : Time → Z → string;
}.

(** [now + timedelta(minutes=m)], with [now] already read: the
    [timedelta] is built, then the sum. *)
Definition plus_minutes `{Runtime} (now : Time) (m : Z) : Outcome Time :=
  if negb (timedelta_ok m) then Raised (timedelta_overflow m)
  else if negb (datetime_ok (now + minutes m))
  then Raised (datetime_overflow now m)
  else Returned (now + minutes m).

(** ** agent_models.py *)

Inductive AgentStatus := IDLE | PROCESSING | WAITING | ERROR | COMPLETED.

#[global] Instance AgentStatus_eq_dec : EqDecision AgentStatus.
Proof. solve_decision. Defined.

Module AgentContext.
Record t := mk {
  agent_id : string;
  session_id : string;
  user_id : string;
  company_id : string;
  permissions : list string;
  state : Dict;
  trace_id : option Z;
  created_at : Time;
}.

Definition with_state (c : t) (s : Dict) : t :=
  mk (agent_id c) (session_id c) (user_id c) (company_id c)
     (permissions c) s (trace_id c) (created_at c).
End AgentContext.

(** One entry of [ApprovalRequest.approvals], the dictionary built by
    [approve_request]. *)
Record Approval := mkApproval {
  approver_id : string;
  approved : bool;
  comments : option string;
  timestamp : Time;
}.

(** The values of [ApprovalRequest.status]: "pending", "approved",
    "rejected", and the "expired" of the state machine. *)
Inductive ApprovalStatus := Pending | Approved | Rejected | Expired.

#[global] Instance ApprovalStatus_eq_dec : EqDecision ApprovalStatus.
Proof. solve_decision. Defined.

Module ApprovalRequest.
Record t := mk {
  id : string;
  workflow_id : string;
  agent_id : string;
  request_type : string;
  description : string;
  data : Dict;
  required_approvers : list string;
  approvals : list Approval;
  status : ApprovalStatus;
  created_at : Time;
  expires_at : option Time;
}.

(** The set comprehension of [is_approved]. *)
Definition approved_by (r : t) : list string :=
  approver_id <$> filter (λ a, approved a = true) (approvals r).

Definition is_approved (r : t) : bool :=
  match required_approvers r with
  | [] => true
  | _ => forallb (λ a, bool_decide (a ∈ approved_by r)) (required_approvers r)
  end.

Definition is_expired (now : Time) (r : t) : bool :=
  match expires_at r with
  | None => false
  | Some e => Z.ltb e now
  end.

(** [request.approvals.append(approval)] *)
Definition append_approval (a : Approval) (r : t) : t :=
  mk (id r) (workflow_id r) (agent_id r) (request_type r) (description r)
     (data r) (required_approvers r) (approvals r ++ [a]) (status r)
     (created_at r) (expires_at r).

(** [request.status = s] *)
Definition set_status (s : ApprovalStatus) (r : t) : t :=
  mk (id r) (workflow_id r) (agent_id r) (request_type r) (description r)
     (data r) (required_approvers r) (approvals r) s
     (created_at r) (expires_at r).
End ApprovalRequest.

Module WorkflowState.
Record t := mk {
  workflow_id : string;
  workflow_type : string;
  current_step : string;
  steps_completed : list string;
  pending_approvals : list ApprovalRequest.t;
  data : Dict;
  context : option AgentContext.t;
  status : AgentStatus;
  error : option string;
  created_at : Time;
  updated_at : Time;
}.

Definition with_steps_completed (l : list string) (now : Time) (w : t) : t :=
  mk (workflow_id w) (workflow_type w) (current_step w) l
     (pending_approvals w) (data w) (context w) (status w) (error w)
     (created_at w) now.

Definition with_pending_approvals (l : list ApprovalRequest.t) (now : Time)
    (w : t) : t :=
  mk (workflow_id w) (workflow_type w) (current_step w) (steps_completed w)
     l (data w) (context w) (status w) (error w) (created_at w) now.

(** [add_approval_request]; [rid] is the uuid drawn for the request,
    [t_exp], [t_created] and [t_upd] are the three clock readings, in the
    order the code makes them.  When the expiry raises, the request is not
    built: neither [rid] nor the two later readings are drawn. *)
Definition add_approval_request `{Runtime} (w : t)
    (agent description : string)
    (request_type : string) (payload : Dict) (required : list string)
    (expires_in_minutes : option Z) (rid : string)
    (t_exp t_created t_upd : Time) : Outcome (ApprovalRequest.t * t) :=
  expires_at ←
    match expires_in_minutes with
    | Some m =>
        if Z.eqb m 0 then Returned None
        else t ← plus_minutes t_exp m; Returned (Some t)
    | None => Returned None
    end;
  let request :=
    ApprovalRequest.mk rid (workflow_id w) agent request_type description
      payload required [] Pending t_created expires_at in
  Returned
    (request,
     with_pending_approvals (pending_approvals w ++ [request]) t_upd w).

(** The body of the [if request.id == request_id] branch of
    [approve_request]: record the decision, then move the status. *)
Definition record_decision (approver : string) (ok : bool)
    (note : option string) (t_stamp : Time) (r : ApprovalRequest.t)
    : ApprovalRequest.t :=
  let r1 := ApprovalRequest.append_approval
              (mkApproval approver ok note t_stamp) r in
  if ok && ApprovalRequest.is_approved r1
  then ApprovalRequest.set_status Approved r1
  else if negb ok
  then ApprovalRequest.set_status Rejected r1
  else r1.

(** The [for request in self.pending_approvals] loop: the first request
    with the given id is updated in place and the loop returns. *)
Fixpoint approve_in (l : list ApprovalRequest.t) (request_id : string)
    (approver : string) (ok : bool) (note : option string)
    (t_stamp : Time) : option (list ApprovalRequest.t) :=
  match l with
  | [] => None
  | r :: rest =>
      if String.eqb (ApprovalRequest.id r) request_id
      then Some (record_decision approver ok note t_stamp r :: rest)
      else (r ::.) <$> approve_in rest request_id approver ok note t_stamp
  end.

(** [approve_request]; [t_stamp] and [t_upd] are its two clock readings. *)
Definition approve_request (w : t) (request_id approver : string)
    (ok : bool) (note : option string) (t_stamp t_upd : Time) : bool * t :=
  match approve_in (pending_approvals w) request_id approver ok note t_stamp with
  | Some l => (true, with_pending_approvals l t_upd w)
  | None => (false, w)
  end.

(** [get_pending_approvals].  [is_expired] reads the clock each time it is
    asked about a request with an expiry; [clock i] is the reading made for
    the request at position [i]. *)
Definition get_pending_approvals (clock : nat → Time) (w : t)
    : list ApprovalRequest.t :=
  (snd <$> filter (λ ir, ApprovalRequest.status ir.2 = Pending
                         ∧ ApprovalRequest.is_expired (clock ir.1) ir.2 = false)
             (imap pair (pending_approvals w))).

Definition complete_step (step_name : string) (now : Time) (w : t) : t :=
  if bool_decide (step_name ∈ steps_completed w)
  then with_steps_completed (steps_completed w) now w
  else with_steps_completed (steps_completed w ++ [step_name]) now w.

Definition set_error (error_message : string) (now : Time) (w : t) : t :=
  mk (workflow_id w) (workflow_type w) (current_step w) (steps_completed w)
     (pending_approvals w) (data w) (context w) ERROR (Some error_message)
     (created_at w) now.

Definition set_status (s : AgentStatus) (now : Time) (w : t) : t :=
  mk (workflow_id w) (workflow_type w) (current_step w) (steps_completed w)
     (pending_approvals w) (data w) (context w) s (error w)
     (created_at w) now.
End WorkflowState.

(** A decision recorded by another task, applied to the workflow. *)
Definition apply_call (w : WorkflowState.t) (c : ApproveCall)
    : WorkflowState.t :=
  (WorkflowState.approve_request w (call_request_id c) (call_approver c)
     (call_approved c) (call_comments c) (call_stamp c) (call_updated c)).2.

(** [str(type(v).__name__)], for the message of an [AttributeError]. *)
Definition type_name (v : PyVal) : string :=
  match v with
  | VNone => "NoneType"
  | VBool _ => "bool"
  | VInt _ => "int"
  | VStr _ => "str"
  | VSeconds _ => "float"
  | VList _ => "list"
  | VDict _ => "dict"
  end.

Definition no_attribute_get (v : PyVal) : string :=
  quoted (type_name v) +:+ " object has no attribute 'get'".

(** [str(v)] inside an f-string.  Containers and floats are rendered by
    [render], which the theorems leave arbitrary. *)
Definition py_str (render : PyVal → string) (v : PyVal) : string :=
  match v with
  | VNone => "None"
  | VBool true => "True"
  | VBool false => "False"
  | VInt n => pretty n
  | VStr s => s
  | _ => render v
  end.

(** A dictionary whose iteration order is observed: insertion order, an
    assignment to an existing key keeps its place. *)
Fixpoint odict_set {V} (l : list (string * V)) (k : string) (v : V)
    : list (string * V) :=
  match l with
  | [] => [(k, v)]
  | (k', v') :: rest =>
      if String.eqb k' k then (k, v) :: rest
      else (k', v') :: odict_set rest k v
  end.

(** ** workflow_engine.py *)

Inductive WorkflowStepType :=
  AGENT_TASK | APPROVAL | CONDITION | PARALLEL | SEQUENTIAL.

#[global] Instance WorkflowStepType_eq_dec : EqDecision WorkflowStepType.
Proof. solve_decision. Defined.

(** The definition part of a step.  Its execution fields ([status],
    [result], [error], [started_at], [completed_at]) are written by the
    engine and never read by it; the model performs the clock readings that
    fill them and leaves the fields out. *)
Module WorkflowStep.
Record t := mk {
  step_id : string;
  step_type : WorkflowStepType;
  name : string;
  description : string;
  agent_id : option string;
  parameters : Dict;
  conditions : Dict;
  timeout_minutes : option Z;
}.
End WorkflowStep.

Module WorkflowDefinition.
Record t := mk {
  workflow_id : string;
  name : string;
  description : string;
  workflow_type : string;
  steps : gmap string WorkflowStep.t;
  step_order : list string;
  dependencies : gmap string (list string);
}.

(** [WorkflowDefinition.__init__] *)
Definition init (wid nm descr wtype : string) : t :=
  mk wid nm descr wtype ∅ [] ∅.

Definition add_step (step : WorkflowStep.t) (deps : option (list string))
    (d : t) : t :=
  let sid := WorkflowStep.step_id step in
  mk (workflow_id d) (name d) (description d) (workflow_type d)
     (<[sid := step]> (steps d))
     (step_order d ++ [sid])
     (match deps with
      | Some (x :: l) => <[sid := x :: l]> (dependencies d)
      | _ => dependencies d
      end).

(** [self.dependencies.get(step_id, [])] *)
Definition deps_of (d : t) (sid : string) : list string :=
  default [] (dependencies d !! sid).

(** The test of the loop body of [get_ready_steps]. *)
Definition is_ready (d : t) (completed : list string) (sid : string) : bool :=
  negb (bool_decide (sid ∈ completed))
  && forallb (λ dep, bool_decide (dep ∈ completed)) (deps_of d sid).

(** The [for step_id in self.step_order] loop; [self.steps[step_id]]
    raises [KeyError] on an id without a step. *)
Fixpoint ready_loop (d : t) (completed : list string) (order : list string)
    : Outcome (list WorkflowStep.t) :=
  match order with
  | [] => Returned []
  | sid :: rest =>
      if is_ready d completed sid then
        match steps d !! sid with
        | Some step =>
            ready ← ready_loop d completed rest; Returned (step :: ready)
        | None => Raised (quoted sid)
        end
      else ready_loop d completed rest
  end.

Definition get_ready_steps (d : t) (completed : list string)
    : Outcome (list WorkflowStep.t) :=
  ready_loop d completed (step_order d).
End WorkflowDefinition.

Module WorkflowEngine.
Record t := mk {
  workflow_definitions : gmap string WorkflowDefinition.t;
  active_executions : gmap string WorkflowState.t;
}.

Definition agent_step (sid nm descr agent : string) (timeout : Z)
    : WorkflowStep.t :=
  WorkflowStep.mk sid AGENT_TASK nm descr (Some agent) ∅ ∅ (Some timeout).

Definition advisory_workflow : WorkflowDefinition.t :=
  WorkflowDefinition.add_step
    (agent_step "executive_reporting" "Executive Reporting"
       "Generate executive summary and recommendations" "reporting_agent" 15)
    (Some ["forecasting"; "risk_assessment"])
  (WorkflowDefinition.add_step
    (agent_step "risk_assessment" "Risk Assessment"
       "Assess financial risks and opportunities" "alert_agent" 10)
    (Some ["financial_analysis"])
  (WorkflowDefinition.add_step
    (agent_step "forecasting" "Financial Forecasting"
       "Generate financial forecasts and projections" "forecasting_agent" 20)
    (Some ["financial_analysis"])
  (WorkflowDefinition.add_step
    (agent_step "financial_analysis" "Financial Analysis"
       "Perform comprehensive financial analysis" "ai_cfo_agent" 15)
    (Some ["data_sync"])
  (WorkflowDefinition.add_step
    (agent_step "data_sync" "Data Synchronization"
       "Sync latest financial data from all sources" "data_sync_agent" 10)
    None
  (WorkflowDefinition.init "advisory_ceo_support" "CEO Advisory Workflow"
     "Complete advisory workflow for CEO decision support" "advisory"))))).

Definition transactional_workflow : WorkflowDefinition.t :=
  WorkflowDefinition.add_step
    (agent_step "compliance_audit" "Compliance Audit"
       "Validate compliance and create audit trail" "compliance_agent" 10)
    (Some ["reconciliation"])
  (WorkflowDefinition.add_step
    (agent_step "reconciliation" "Bank Reconciliation"
       "Reconcile transactions with bank statements" "reconciliation_agent" 15)
    (Some ["approval_check"])
  (WorkflowDefinition.add_step
    (WorkflowStep.mk "approval_check" APPROVAL "Transaction Approval"
       "Human approval for high-value transactions" None ∅ ∅ (Some 60))
    (Some ["accounting_entries"])
  (WorkflowDefinition.add_step
    (agent_step "accounting_entries" "Accounting Entries"
       "Create automated accounting entries" "accounting_agent" 10)
    (Some ["data_standardization"])
  (WorkflowDefinition.add_step
    (agent_step "data_standardization" "Data Standardization"
       "Standardize and validate extracted data" "data_sync_agent" 5)
    (Some ["document_processing"])
  (WorkflowDefinition.add_step
    (agent_step "document_processing" "Document Processing"
       "OCR and document data extraction" "ocr_agent" 5)
    None
  (WorkflowDefinition.init "transactional_automation"
     "Transactional Automation Workflow"
     "Complete transactional processing workflow" "transactional")))))).

(** [WorkflowEngine.__init__] with [_initialize_builtin_workflows]. *)
Definition init : t :=
  mk (<["transactional" := transactional_workflow]>
        (<["advisory" := advisory_workflow]> ∅)) ∅.

Section execution.
Context `{Runtime}.

(** [str()] of an error value that is not a scalar. *)
Variable render : PyVal → string.

(** The [agent_executor] argument: an awaited call
    [agent_executor(agent_id, request, context)]. *)
Variable agent_executor :
  option string → Dict → option AgentContext.t → World
  → Outcome PyVal * World.

(** [{"success": False, "error": e}] *)
Definition failure (e : string) : Dict :=
  list_to_map [("success", VBool false); ("error", VStr e)].

Definition step_request (step : WorkflowStep.t) (ws : WorkflowState.t)
    : Dict :=
  list_to_map
    [("step_name", VStr (WorkflowStep.name step));
     ("step_description", VStr (WorkflowStep.description step));
     ("parameters", VDict (WorkflowStep.parameters step));
     ("workflow_data", VDict (WorkflowState.data ws))].

(** A result that is not a dictionary makes [result.get] of the logging
    call raise, after [completed_at] was set; the handler sets
    [completed_at] again. *)
Definition _execute_agent_step (step : WorkflowStep.t)
    (ws : WorkflowState.t) (w : World) : Dict * World :=
  let '(_, w) := utcnow w in
  let '(res, w) :=
    agent_executor (WorkflowStep.agent_id step) (step_request step ws)
      (WorkflowState.context ws) w in
  match res with
  | Returned (VDict result) =>
      let '(_, w) := utcnow w in (result, w)
  | Returned v =>
      let '(_, w) := utcnow w in
      let '(_, w) := utcnow w in (failure (no_attribute_get v), w)
  | Raised e =>
      let '(_, w) := utcnow w in (failure e, w)
  end.

(** The request object the step holds is the element of
    [pending_approvals] at the position where it was appended. *)
Definition held_request (ws : WorkflowState.t) (idx : nat)
    (req : ApprovalRequest.t) : ApprovalRequest.t :=
  default req (WorkflowState.pending_approvals ws !! idx).

Definition approval_result (ok : bool) (e : option string) (rid : string)
    : Dict :=
  match e with
  | None =>
      list_to_map [("success", VBool ok); ("approved", VBool true);
                   ("approval_id", VStr rid)]
  | Some msg =>
      list_to_map [("success", VBool ok); ("error", VStr msg);
                   ("approval_id", VStr rid)]
  end.

(** The [while datetime.utcnow() < timeout] loop; [fuel] bounds the
    number of polls. *)
Fixpoint approval_wait (fuel : nat) (idx : nat) (req : ApprovalRequest.t)
    (timeout : Time) (ws : WorkflowState.t) (w : World)
    : option (Dict * WorkflowState.t * World) :=
  match fuel with
  | O => None
  | S fuel =>
      let '(now, w) := utcnow w in
      if Z.ltb now timeout then
        let req := held_request ws idx req in
        if ApprovalRequest.is_approved req then
          let '(_, w) := utcnow w in
          Some (approval_result true None (ApprovalRequest.id req), ws, w)
        else if bool_decide (ApprovalRequest.status req = Rejected) then
          let '(_, w) := utcnow w in
          Some (approval_result false (Some "Approval rejected")
                  (ApprovalRequest.id req), ws, w)
        else
          let '(calls, w) := sleep w in
          approval_wait fuel idx req timeout (foldl apply_call ws calls) w
      else
        let '(_, w) := utcnow w in
        Some (approval_result false (Some "Approval timeout")
                (ApprovalRequest.id (held_request ws idx req)), ws, w)
  end.

(** The first part of [_execute_approval_step]: the request is created
    and appended to [pending_approvals].  The clock is read for
    [started_at], for [expires_at] when the timeout is neither [None] nor
    zero, for [created_at] and for [updated_at].  When the expiry raises,
    no request is built and the workflow state is left as it was. *)
Definition approval_request (step : WorkflowStep.t) (ws : WorkflowState.t)
    (w : World)
    : Outcome (nat * ApprovalRequest.t) * WorkflowState.t * World :=
  let '(_, w) := utcnow w in
  let '(t_exp, w) :=
    if Z.eqb (int_or (WorkflowStep.timeout_minutes step) 0) 0
    then (0, w) else utcnow w in
  let '(rid, w1) := uuid4 w in
  let '(t_created, w1) := utcnow w1 in
  let '(t_upd, w1) := utcnow w1 in
  let idx := length (WorkflowState.pending_approvals ws) in
  match WorkflowState.add_approval_request ws "workflow_engine"
          (WorkflowStep.description step) "workflow_approval"
          (WorkflowStep.parameters step) ["financial_manager"]
          (WorkflowStep.timeout_minutes step) rid t_exp t_created t_upd with
  | Raised e => (Raised e, ws, w)
  | Returned (req, ws) => (Returned (idx, req), ws, w1)
  end.

(** [_execute_approval_step] up to its loop: after the request, the
    deadline [timeout], from a clock reading of its own.  This sum can
    raise too, with the request already appended. *)
Definition approval_begin (step : WorkflowStep.t) (ws : WorkflowState.t)
    (w : World)
    : Outcome (nat * ApprovalRequest.t * Time) * WorkflowState.t * World :=
  match approval_request step ws w with
  | (Raised e, ws, w) => (Raised e, ws, w)
  | (Returned (idx, req), ws, w) =>
      let '(t0, w) := utcnow w in
      match plus_minutes t0 (int_or (WorkflowStep.timeout_minutes step) 60)
      with
      | Raised e => (Raised e, ws, w)
      | Returned timeout => (Returned (idx, req, timeout), ws, w)
      end
  end.

(** [_execute_approval_step]: what the two sums raise is caught by the
    [except], which reads the clock for [completed_at] and answers with
    the message. *)
Definition _execute_approval_step (fuel : nat) (step : WorkflowStep.t)
    (ws : WorkflowState.t) (w : World)
    : option (Dict * WorkflowState.t * World) :=
  match approval_begin step ws w with
  | (Raised e, ws, w) =>
      let '(_, w) := utcnow w in Some (failure e, ws, w)
  | (Returned (idx, req, timeout), ws, w) =>
      approval_wait fuel idx req timeout ws w
  end.

(** [_execute_steps]: the coroutines of the agent and approval steps are
    created first and awaited one after the other, in the order of
    [steps]; steps of the other types get no task.  Both step functions
    catch what they raise, so the [except] around the [await] is never
    entered. *)
Fixpoint await_steps (fuel : nat) (steps : list WorkflowStep.t)
    (results : list (string * Dict)) (ws : WorkflowState.t) (w : World)
    : option (list (string * Dict) * WorkflowState.t * World) :=
  match steps with
  | [] => Some (results, ws, w)
  | step :: rest =>
      let sid := WorkflowStep.step_id step in
      match WorkflowStep.step_type step with
      | AGENT_TASK =>
          let '(r, w) := _execute_agent_step step ws w in
          await_steps fuel rest (odict_set results sid r) ws w
      | APPROVAL =>
          '(r, ws, w) ← _execute_approval_step fuel step ws w;
          await_steps fuel rest (odict_set results sid r) ws w
      | _ => await_steps fuel rest results ws w
      end
  end.

Definition _execute_steps (fuel : nat) (steps : list WorkflowStep.t)
    (ws : WorkflowState.t) (w : World) :=
  await_steps fuel steps [] ws w.

Definition step_failed (ws : WorkflowState.t) (sid : string) : Dict :=
  list_to_map
    [("success", VBool false);
     ("error", from_option VStr VNone (WorkflowState.error ws));
     ("workflow_id", VStr (WorkflowState.workflow_id ws));
     ("failed_step", VStr sid)].

(** The [for step_id, result in step_results.items()] loop; [Some d] is
    the dictionary returned from inside the loop. *)
Fixpoint process_results (results : list (string * Dict))
    (ws : WorkflowState.t) (w : World)
    : option Dict * WorkflowState.t * World :=
  match results with
  | [] => (None, ws, w)
  | (sid, result) :: rest =>
      if truthy (dict_get result "success" (VBool false)) then
        let '(now, w) := utcnow w in
        process_results rest (WorkflowState.complete_step sid now ws) w
      else
        let error_msg :=
          dict_get result "error" (VStr "Step execution failed") in
        let '(now, w) := utcnow w in
        let ws :=
          WorkflowState.set_error
            ("Step " +:+ sid +:+ " failed: " +:+ py_str render error_msg)
            now ws in
        (Some (step_failed ws sid), ws, w)
  end.

Definition workflow_completed (wtype : string) (ws : WorkflowState.t)
    (now : Time) : Dict :=
  list_to_map
    [("success", VBool true);
     ("workflow_id", VStr (WorkflowState.workflow_id ws));
     ("workflow_type", VStr wtype);
     ("completed_steps", VList (VStr <$> WorkflowState.steps_completed ws));
     ("execution_time", VSeconds (now - WorkflowState.created_at ws))].

Definition workflow_crashed (ws : WorkflowState.t) : Dict :=
  list_to_map
    [("success", VBool false);
     ("error", from_option VStr VNone (WorkflowState.error ws));
     ("workflow_id", VStr (WorkflowState.workflow_id ws))].

(** The [while True] loop of [execute_workflow] with what follows it
    inside the [try], and the [except Exception] handler.  [fuel] bounds
    the number of iterations, [pfuel] the polls of one approval step.
    The last component is the history of the variable [step_results]: its
    value in each iteration, in order. *)
Fixpoint run_loop (fuel pfuel : nat) (def : WorkflowDefinition.t)
    (wtype : string) (ws : WorkflowState.t) (w : World)
    : option (Dict * WorkflowState.t * World * list (list (string * Dict))) :=
  match fuel with
  | O => None
  | S fuel =>
      match WorkflowDefinition.get_ready_steps def
              (WorkflowState.steps_completed ws) with
      | Raised e =>
          let '(now, w) := utcnow w in
          let ws :=
            WorkflowState.set_error
              ("Workflow execution failed: " +:+ e) now ws in
          Some (workflow_crashed ws, ws, w, [])
      | Returned [] =>
          let '(now, w) := utcnow w in
          let ws := WorkflowState.set_status COMPLETED now ws in
          let '(now, w) := utcnow w in
          Some (workflow_completed wtype ws now, ws, w, [])
      | Returned ready_steps =>
          '(step_results, ws, w) ← _execute_steps pfuel ready_steps ws w;
          match process_results step_results ws w with
          | (Some d, ws, w) => Some (d, ws, w, [step_results])
          | (None, ws, w) =>
              '(d, ws, w, history) ← run_loop fuel pfuel def wtype ws w;
              Some (d, ws, w, step_results :: history)
          end
      end
  end.

(** The [finally] block. *)
Definition clean_up (e : t) (wid : string) : t :=
  if bool_decide (is_Some (active_executions e !! wid))
  then mk (workflow_definitions e) (delete wid (active_executions e))
  else e.

Definition execute_workflow (fuel pfuel : nat) (e : t) (wtype : string)
    (ws : WorkflowState.t) (w : World)
    : option (Dict * t * WorkflowState.t * World
              * list (list (string * Dict))) :=
  match workflow_definitions e !! wtype with
  | None =>
      Some (failure ("Unknown workflow type: " +:+ wtype), e, ws, w, [])
  | Some def =>
      let wid := WorkflowState.workflow_id ws in
      let e := mk (workflow_definitions e)
                  (<[wid := ws]> (active_executions e)) in
      let '(now, w) := utcnow w in
      let ws := WorkflowState.set_status PROCESSING now ws in
      '(d, ws, w, history) ← run_loop fuel pfuel def wtype ws w;
      Some (d, clean_up e wid, ws, w, history)
  end.
End execution.
End WorkflowEngine.

(** ** orchestrator.py *)

Module AgentOrchestrator.
Section orchestrator.
Context `{Runtime}.

(** A registered agent is its awaited [invoke(request, context)].  The
    integer argument is the value that [_active_agent_count] has while
    the agent runs.  Agents return values of [PyVal], none of which is
    a coroutine, so the first test of [_resolve_result] is false. *)
Definition Agent : Type :=
  PyVal → option AgentContext.t → Z → World → Outcome PyVal * World.

(** [str()] of an error value that is not a scalar. *)
Variable render : PyVal → string.

Record t := mk {
  agents : gmap string Agent;
  active_workflows : gmap string WorkflowState.t;
  _running : bool;
  _max_concurrent_agents : Z;
  _active_agent_count : Z;
}.

Definition with_count (n : Z) (o : t) : t :=
  mk (agents o) (active_workflows o) (_running o)
     (_max_concurrent_agents o) n.

Definition with_workflows (m : gmap string WorkflowState.t) (o : t) : t :=
  mk (agents o) m (_running o) (_max_concurrent_agents o)
     (_active_agent_count o).

Definition register_agent (agent_id : string) (a : Agent) (o : t) : t :=
  mk (<[agent_id := a]> (agents o)) (active_workflows o) (_running o)
     (_max_concurrent_agents o) (_active_agent_count o).

Definition _resolve_result (result : PyVal) : Dict :=
  match result with
  | VDict d => d
  | v => list_to_map [("success", VBool true); ("result", v)]
  end.

Definition agent_not_found (agent_id session : string) : Dict :=
  list_to_map
    [("success", VBool false);
     ("error", VStr ("Agent '" +:+ agent_id +:+ "' not found"));
     ("session_id", VStr session)].

Definition capacity_reached (session : string) : Dict :=
  list_to_map
    [("success", VBool false);
     ("error", VStr "Maximum concurrent agents reached");
     ("session_id", VStr session)].

Definition agent_failed (e session : string) : Dict :=
  list_to_map
    [("success", VBool false);
     ("error", VStr ("Agent execution failed: " +:+ e));
     ("session_id", VStr session)].

(** The four [return] statements of [_route_to_agent]. *)
Inductive Dispatch :=
  | NotFound
  | CapacityExceeded
  | Completed (normalized : Dict)
  | ExecutionFailed (e : string).

Definition dispatch_dict (agent_id session : string) (r : Dispatch)
    : Dict :=
  match r with
  | NotFound => agent_not_found agent_id session
  | CapacityExceeded => capacity_reached session
  | Completed normalized => normalized
  | ExecutionFailed e => agent_failed e session
  end.

(** The body of [_route_to_agent], each result tagged with the [return]
    it comes from. *)
Definition dispatch (o : t) (agent_id : string) (request : PyVal)
    (context : AgentContext.t) (w : World) : Dispatch * t * World :=
  match agents o !! agent_id with
  | None => (NotFound, o, w)
  | Some agent =>
      if Z.leb (_max_concurrent_agents o) (_active_agent_count o) then
        (CapacityExceeded, o, w)
      else
        (* try *)
        let o := with_count (_active_agent_count o + 1) o in
        let '(result, w) :=
          agent request (Some context) (_active_agent_count o) w in
        let r :=
          match result with
          | Returned v => Completed (_resolve_result v)
          | Raised e => ExecutionFailed e
          end in
        (* finally *)
        (r, with_count (_active_agent_count o - 1) o, w)
  end.

Definition _route_to_agent (o : t) (agent_id : string) (request : PyVal)
    (context : AgentContext.t) (w : World) : Dict * t * World :=
  let '(r, o, w) := dispatch o agent_id request context w in
  (dispatch_dict agent_id (AgentContext.session_id context) r, o, w).

(** One [if "<agent>" in self.agents:] block of a workflow body.  The
    first component is the exception raised so far, if any: once set,
    the rest of the [try] is skipped. *)
Definition stage (o : t) (agent_id : string) (prompt : PyVal)
    (key step : string)
    (st : option string * Dict * WorkflowState.t * World)
    : option string * Dict * WorkflowState.t * World :=
  let '(raised, results, ws, w) := st in
  match raised, agents o !! agent_id with
  | None, Some agent =>
      let '(r, w) :=
        agent prompt (WorkflowState.context ws) (_active_agent_count o) w in
      match r with
      | Returned v =>
          let '(now, w) := utcnow w in
          (None, <[key := v]> results,
           WorkflowState.complete_step step now ws, w)
      | Raised e => (Some e, results, ws, w)
      end
  | _, _ => st
  end.

Definition workflow_result (wtype : string) (prefix : string)
    (st : option string * Dict * WorkflowState.t * World)
    : Dict * WorkflowState.t * World :=
  let '(raised, results, ws, w) := st in
  match raised with
  | None =>
      (list_to_map
         [("success", VBool true);
          ("workflow_type", VStr wtype);
          ("workflow_id", VStr (WorkflowState.workflow_id ws));
          ("results", VDict results);
          ("completed_steps",
           VList (VStr <$> WorkflowState.steps_completed ws))],
       ws, w)
  | Some e =>
      (list_to_map
         [("success", VBool false);
          ("error", VStr (prefix +:+ e));
          ("workflow_id", VStr (WorkflowState.workflow_id ws))],
       ws, w)
  end.

Definition _execute_advisory_workflow (o : t) (ws : WorkflowState.t)
    (w : World) : Dict * WorkflowState.t * World :=
  let request := dict_get (WorkflowState.data ws) "request" VNone in
  workflow_result "advisory" "Advisory workflow failed: "
    (stage o "reporting_agent"
       (VStr "Generate executive financial report") "report" "reporting"
    (stage o "alert_agent"
       (VStr "Check for financial risks and opportunities") "alerts" "alerts"
    (stage o "forecasting_agent"
       (VStr "Generate financial forecasts based on current data")
       "forecasting" "forecasting"
    (stage o "ai_cfo_agent" request "analysis" "analysis"
    (stage o "data_sync_agent"
       (VStr "Sync latest financial data for analysis")
       "data_sync" "data_sync"
    (None, ∅, ws, w)))))).

Definition _execute_transactional_workflow (o : t) (ws : WorkflowState.t)
    (w : World) : Dict * WorkflowState.t * World :=
  let request := dict_get (WorkflowState.data ws) "request" VNone in
  workflow_result "transactional" "Transactional workflow failed: "
    (stage o "compliance_agent"
       (VStr "Validate compliance and create audit trail")
       "compliance" "compliance"
    (stage o "reconciliation_agent"
       (VStr "Reconcile transactions with bank statements")
       "reconciliation" "reconciliation"
    (stage o "accounting_agent"
       (VStr "Create accounting entries from processed data")
       "accounting" "accounting"
    (stage o "data_sync_agent"
       (VStr "Standardize and validate processed data")
       "standardization" "standardization"
    (stage o "ocr_agent" request "ocr_processing" "ocr_processing"
    (None, ∅, ws, w)))))).

(** [_route_to_workflow].  The table holds the very object that the
    workflow body mutates, so its entry is written back after each
    mutation.  Nothing in the modelled body raises outside the workflow
    bodies, which catch their own exceptions.  [error] holds strings,
    so the value given to [set_error] is kept as its [str()]. *)
Definition _route_to_workflow (o : t) (wtype : string) (request : PyVal)
    (context : AgentContext.t) (w : World) : Dict * t * World :=
  let '(wid, w) := uuid4 w in
  let '(t_created, w) := utcnow w in
  let '(t_updated, w) := utcnow w in
  let ws :=
    WorkflowState.mk wid wtype "start" [] [] {["request" := request]}
      (Some context) PROCESSING None t_created t_updated in
  let o := with_workflows (<[wid := ws]> (active_workflows o)) o in
  let '(result, ws, w) :=
    if String.eqb wtype "advisory" then _execute_advisory_workflow o ws w
    else if String.eqb wtype "transactional"
    then _execute_transactional_workflow o ws w
    else (WorkflowEngine.failure ("Unknown workflow type: " +:+ wtype),
          ws, w) in
  let '(now, w) := utcnow w in
  let ws :=
    if truthy (dict_get result "success" (VBool false))
    then WorkflowState.set_status COMPLETED now ws
    else WorkflowState.set_error
           (py_str render (dict_get result "error" (VStr "Unknown error")))
           now ws in
  (result, with_workflows (<[wid := ws]> (active_workflows o)) o, w).

(** [unregister_agent] *)
Definition unregister_agent (agent_id : string) (o : t) : bool * t :=
  match agents o !! agent_id with
  | None => (false, o)
  | Some _ =>
      (true,
       mk (delete agent_id (agents o)) (active_workflows o) (_running o)
          (_max_concurrent_agents o) (_active_agent_count o))
  end.

(** [stop], without the tool hub. *)
Definition stop (o : t) : t :=
  if _running o
  then mk (agents o) ∅ false (_max_concurrent_agents o)
          (_active_agent_count o)
  else o.

(** [keyword in s], on strings. *)
Fixpoint contains (keyword s : string) : bool :=
  String.prefix keyword s
  || match s with
     | EmptyString => false
     | String _ rest => contains keyword rest
     end.

(** [any(keyword in s for keyword in keywords)] *)
Definition any_in (keywords : list string) (s : string) : bool :=
  existsb (λ keyword, contains keyword s) keywords.

(** [str.lower] *)
Variable lower : string → string.

(** [_intelligent_routing].  [_route_to_agent] catches what the agent
    raises, so the fallback of the [except] branch is never taken. *)
Definition _intelligent_routing (o : t) (request : PyVal)
    (context : AgentContext.t) (w : World) : Dict * t * World :=
  let request_str := py_str render request in
  let request_lower := lower request_str in
  if any_in ["forecast"; "predict"; "projection"; "trend"; "future"]
       request_lower
  then _route_to_agent o "forecasting_agent" request context w
  else if any_in ["alert"; "warning"; "risk"; "threshold"; "monitor"]
            request_lower
  then _route_to_agent o "alert_agent" request context w
  else if any_in ["report"; "summary"; "brief"; "dashboard"; "analysis"]
            request_lower
  then _route_to_agent o "reporting_agent" request context w
  else if any_in ["ocr"; "scan"; "receipt"; "invoice"; "document"]
            request_lower
  then _route_to_agent o "ocr_agent" request context w
  else if any_in ["sync"; "integration"; "import"; "export"; "data"]
            request_lower
  then _route_to_agent o "data_sync_agent" request context w
  else if any_in ["reconcile"; "match"; "balance"; "statement"]
            request_lower
  then _route_to_agent o "reconciliation_agent" request context w
  else _route_to_agent o "ai_cfo_agent" request context w.

(** [route_request].  [span_trace_id] is the trace id of the current
    span, used when the context is built here.  An empty string is a
    falsy [preferred_agent] or [workflow_type].  The three routes catch
    their own exceptions, so the [except] branch is never taken. *)
Definition route_request (o : t) (request : PyVal)
    (context : option AgentContext.t)
    (preferred_agent workflow_type : option string) (span_trace_id : Z)
    (w : World) : Dict * t * World :=
  let '(context, w) :=
    match context with
    | Some context => (context, w)
    | None =>
        let '(session_id, w) := uuid4 w in
        let '(now, w) := utcnow w in
        (AgentContext.mk "orchestrator" session_id "system" "default" [] ∅
           (Some span_trace_id) now, w)
    end in
  (* a name that is given: neither [None] nor the empty string *)
  let given (name : option string) : bool :=
    match name with
    | Some s => negb (String.eqb s "")
    | None => false
    end in
  if given preferred_agent
     && bool_decide (is_Some (agents o !! default "" preferred_agent))
  then _route_to_agent o (default "" preferred_agent) request context w
  else if given workflow_type
  then _route_to_workflow o (default "" workflow_type) request context w
  else _intelligent_routing o request context w.
End orchestrator.
End AgentOrchestrator.

(** ** context_manager.py *)

(** An [asyncio.Lock] is either the one stored for a session or the fresh
    one that [context_locks.get(session_id, asyncio.Lock())] falls back
    to; [FreshLock false] is the default built for the source session,
    [FreshLock true] the one built for the target. *)
Inductive LockRef := SessionLock (session : string) | FreshLock (target : bool).

#[global] Instance LockRef_eq_dec : EqDecision LockRef.
Proof. solve_decision. Defined.

Inductive LockEvent := Acquire (l : LockRef) | Release (l : LockRef).

Module ContextManager.
(** [context_locks] maps a session to its lock; the boolean is the
    lock's [locked()] state. *)
Record t := mk {
  active_contexts : gmap string AgentContext.t;
  shared_state : gmap string Dict;
  context_locks : gmap string bool;
}.

(** An awaited call either returns, or stays suspended on a lock that is
    held; both come with the lock operations performed so far. *)
Inductive Awaited (A : Type) :=
  | Done (a : A) (m : t) (trace : list LockEvent)
  | Blocked (on : LockRef) (m : t) (trace : list LockEvent).
Arguments Done {A} a m trace.
Arguments Blocked {A} on m trace.

Definition create_context (m : t) (session : string)
    (context : AgentContext.t) : t :=
  let company := AgentContext.company_id context in
  mk (<[session := context]> (active_contexts m))
     (match shared_state m !! company with
      | Some _ => shared_state m
      | None => <[company := ∅]> (shared_state m)
      end)
     (<[session := false]> (context_locks m)).

Definition lock_of (m : t) (session : string) (target : bool) : LockRef :=
  match context_locks m !! session with
  | Some _ => SessionLock session
  | None => FreshLock target
  end.

Definition locked (m : t) (l : LockRef) : bool :=
  match l with
  | SessionLock s => default false (context_locks m !! s)
  | FreshLock _ => false
  end.

Definition set_locked (l : LockRef) (b : bool) (m : t) : t :=
  match l with
  | SessionLock s =>
      mk (active_contexts m) (shared_state m) (<[s := b]> (context_locks m))
  | FreshLock _ => m
  end.

(** [for key in keys: if key in source.state: target.state[key] = ...] *)
Definition copy_keys (keys : list string) (source target : Dict) : Dict :=
  foldl (λ tgt key,
           match source !! key with
           | Some v => <[key := v]> tgt
           | None => tgt
           end) target keys.

(** The body under the two locks.  The contexts are looked up again
    through the table, so a source that is also the target is one
    object. *)
Definition share_body (m : t) (source target : string)
    (keys : option (list string)) : t :=
  match active_contexts m !! source, active_contexts m !! target with
  | Some src, Some tgt =>
      let state :=
        match keys with
        | Some (k :: ks) =>
            copy_keys (k :: ks) (AgentContext.state src)
              (AgentContext.state tgt)
        | _ => AgentContext.state src ∪ AgentContext.state tgt
        end in
      mk (<[target := AgentContext.with_state tgt state]> (active_contexts m))
         (shared_state m) (context_locks m)
  | _, _ => m
  end.

Definition share_context_data (m : t) (source_session_id : string)
    (target_session_id : string) (keys : option (list string))
    : Awaited bool :=
  match active_contexts m !! source_session_id,
        active_contexts m !! target_session_id with
  | Some _, Some _ =>
      let source_lock := lock_of m source_session_id false in
      let target_lock := lock_of m target_session_id true in
      if locked m source_lock then Blocked source_lock m []
      else
        let m := set_locked source_lock true m in
        if locked m target_lock
        then Blocked target_lock m [Acquire source_lock]
        else
          let m := set_locked target_lock true m in
          let m := share_body m source_session_id target_session_id keys in
          let m := set_locked target_lock false m in
          let m := set_locked source_lock false m in
          Done true m [Acquire source_lock; Acquire target_lock;
                       Release target_lock; Release source_lock]
  | _, _ => Done false m []
  end.

(** [ContextManager.__init__] *)
Definition init : t := mk ∅ ∅ ∅.

(** [update_context_state]: the test for the session comes before the
    lock, the update is made under the lock. *)
Definition update_context_state (m : t) (session_id : string)
    (state_updates : Dict) (merge : bool) : Awaited bool :=
  match active_contexts m !! session_id with
  | None => Done false m []
  | Some _ =>
      let lock := lock_of m session_id false in
      if locked m lock then Blocked lock m []
      else
        let m := set_locked lock true m in
        let m :=
          match active_contexts m !! session_id with
          | Some context =>
              let state :=
                if merge then state_updates ∪ AgentContext.state context
                else state_updates in
              mk (<[session_id := AgentContext.with_state context state]>
                    (active_contexts m))
                 (shared_state m) (context_locks m)
          | None => m
          end in
        let m := set_locked lock false m in
        Done true m [Acquire lock; Release lock]
  end.

(** [get_context] *)
Definition get_context (m : t) (session_id : string)
    : option AgentContext.t :=
  active_contexts m !! session_id.

(** [get_shared_state]: [None] and the empty string are falsy keys; the
    answer is a value, [None], or a copy of the company's dictionary. *)
Definition get_shared_state (m : t) (company_id : string)
    (key : option string) : PyVal :=
  let keyed := match key with Some k => negb (String.eqb k "") | None => false end in
  match shared_state m !! company_id with
  | None => if keyed then VNone else VDict ∅
  | Some company_state =>
      if keyed then dict_get company_state (default "" key) VNone
      else VDict company_state
  end.

(** [update_shared_state] *)
Definition update_shared_state (m : t) (company_id key : string)
    (value : PyVal) : t :=
  mk (active_contexts m)
     (<[company_id := <[key := value]> (default ∅ (shared_state m !! company_id))]>
        (shared_state m))
     (context_locks m).

(** [cleanup_context] *)
Definition cleanup_context (m : t) (session_id : string) : bool * t :=
  match active_contexts m !! session_id with
  | None => (false, m)
  | Some _ =>
      (true,
       mk (delete session_id (active_contexts m)) (shared_state m)
          (delete session_id (context_locks m)))
  end.

(** The test of the first loop of [cleanup_expired_contexts]; [ttl] is
    [context_ttl_minutes]. *)
Definition expired (current_time : Time) (ttl : Z) (context : AgentContext.t)
    : Prop :=
  minutes ttl < current_time - AgentContext.created_at context.

#[global] Instance expired_dec current_time ttl context :
  Decision (expired current_time ttl context).
Proof. unfold expired. apply _. Defined.

(** The second loop of [cleanup_expired_contexts], over the sessions that
    the first loop collected. *)
Fixpoint cleanup_sessions (m : t) (expired_sessions : list string)
    : Z * t :=
  match expired_sessions with
  | [] => (0, m)
  | session_id :: rest =>
      let '(removed, m) := cleanup_context m session_id in
      let '(cleanup_count, m) := cleanup_sessions m rest in
      ((if removed then 1 else 0) + cleanup_count, m)
  end.

(** [clear_all_contexts] *)
Definition clear_all_contexts (m : t) : Z * t :=
  (Z.of_nat (size (active_contexts m)), mk ∅ ∅ ∅).

Section clock.
Context `{Runtime}.

(** [create_context], from its arguments: the session id is drawn, the
    context is built with the clock reading of [created_at] and stored. *)
Definition create (m : t) (agent_id user_id company_id : string)
    (permissions : option (list string)) (initial_state : option Dict)
    (trace_id : option Z) (w : World) : AgentContext.t * t * World :=
  let '(session_id, w) := uuid4 w in
  let '(now, w) := utcnow w in
  let context :=
    AgentContext.mk agent_id session_id user_id company_id
      (default [] permissions) (default ∅ initial_state) trace_id now in
  (context, create_context m session_id context, w).

(** [create_workflow_context].  A base context counts when it is given:
    objects of the model class are truthy. *)
Definition create_workflow_context (m : t) (workflow_state : WorkflowState.t)
    (base_context : option AgentContext.t) (w : World)
    : AgentContext.t * t * World :=
  let '(session_id, w) := uuid4 w in
  let '(now, w) := utcnow w in
  let context :=
    match base_context with
    | Some base =>
        AgentContext.mk "workflow_orchestrator" session_id
          (AgentContext.user_id base) (AgentContext.company_id base)
          (AgentContext.permissions base) (AgentContext.state base)
          (AgentContext.trace_id base) now
    | None =>
        AgentContext.mk "workflow_orchestrator" session_id
          (from_option AgentContext.user_id "system"
             (WorkflowState.context workflow_state))
          (from_option AgentContext.company_id "default"
             (WorkflowState.context workflow_state))
          [] ∅ None now
    end in
  let workflow_keys : Dict :=
    list_to_map
      [("workflow_id", VStr (WorkflowState.workflow_id workflow_state));
       ("workflow_type", VStr (WorkflowState.workflow_type workflow_state));
       ("workflow_data", VDict (WorkflowState.data workflow_state))] in
  let context :=
    AgentContext.with_state context
      (workflow_keys ∪ AgentContext.state context) in
  (context,
   mk (<[session_id := context]> (active_contexts m)) (shared_state m)
      (<[session_id := false]> (context_locks m)),
   w).

(** [cleanup_expired_contexts].  [items] is what
    [self.active_contexts.items()] yields, in the order of the dictionary;
    the first loop collects the expired sessions, the second removes
    them.  The first loop builds [timedelta(minutes=ttl)] for each item:
    out of range, it raises at the first item, before anything is
    removed, and nothing catches the error. *)
Definition cleanup_expired_contexts (m : t) (ttl : Z)
    (items : list (string * AgentContext.t)) (w : World)
    : Outcome (Z * t) * World :=
  let '(current_time, w) := utcnow w in
  match items with
  | _ :: _ =>
      if timedelta_ok ttl then
        let expired_sessions :=
          (filter (λ kv, expired current_time ttl kv.2) items).*1 in
        (Returned (cleanup_sessions m expired_sessions), w)
      else (Raised (timedelta_overflow ttl), w)
  | [] => (Returned (0, m), w)
  end.
End clock.

(** The locks a call acquires, in the order it acquires them. *)
Definition acquired (trace : list LockEvent) : list LockRef :=
  omap (λ e, match e with Acquire l => Some l | Release _ => None end) trace.

Definition trace_of {A} (r : Awaited A) : list LockEvent :=
  match r with
  | Done _ _ tr => tr
  | Blocked _ _ tr => tr
  end.
End ContextManager.

(** ** A scripted world, to run the code on concrete inputs *)

Module Script.
(** The clock stands still between two sleeps and moves by one second per
    sleep; [inbox] holds, per sleep, the decisions recorded meanwhile;
    [invoked] lists the agents run so far, each with the value of the
    dispatch counter it saw. *)
Record world := mk {
  now : Time;
  next_id : nat;
  inbox : list (list ApproveCall);
  invoked : list (string * Z);
}.

#[global] Instance runtime : Runtime := {|
  World := world;
  utcnow w := (now w, w);
  uuid4 w :=
    ("id-" +:+ pretty (next_id w),
     mk (now w) (S (next_id w)) (inbox w) (invoked w));
  sleep w :=
    (default [] (head (inbox w)),
     mk (now w + seconds 1) (next_id w) (tail (inbox w)) (invoked w));
  timedelta_overflow _ := "timedelta out of range";
  datetime_overflow _ _ := "date value out of range";
|}.

Definition start : world := mk 0 0 [] [].

Definition note (who : string) (count : Z) (w : world) : world :=
  mk (now w) (next_id w) (inbox w) (invoked w ++ [(who, count)]).

(** An agent that records its run and replies [reply]. *)
Definition agent (who : string) (reply : Outcome PyVal)
    : @AgentOrchestrator.Agent runtime :=
  λ _ _ count w, (reply, note who count w).

(** An executor that replies from a table of agent ids; an id without an
    entry raises. *)
Definition executor (replies : gmap string (Outcome PyVal))
    (agent_id : option string) (request : Dict)
    (context : option AgentContext.t) (w : world)
    : Outcome PyVal * world :=
  let who := default "None" agent_id in
  (default (Raised ("no agent " +:+ who)) (replies !! who), note who 0 w).

Definition ok : Outcome PyVal :=
  Returned (VDict {["success" := VBool true]}).

Definition render (v : PyVal) : string := "<" +:+ type_name v +:+ ">".

Definition context : AgentContext.t :=
  AgentContext.mk "orchestrator" "session-1" "system" "default" [] ∅ None 0.

Definition workflow (wtype : string) : WorkflowState.t :=
  WorkflowState.mk "wf-1" wtype "start" [] [] ∅ (Some context) IDLE None 0 0.

(** A workflow waiting on one approval request, "req-1", that needs the
    financial manager. *)
Definition request : ApprovalRequest.t :=
  ApprovalRequest.mk "req-1" "wf-1" "workflow_engine" "workflow_approval"
    "Human approval for high-value transactions" ∅ ["financial_manager"]
    [] Pending 0 None.

Definition waiting : WorkflowState.t :=
  WorkflowState.mk "wf-1" "transactional" "start" [] [request] ∅
    (Some context) PROCESSING None 0 0.

(** Two sessions, "a" and "b", of one company, each with its lock. *)
Definition session (sid : string) (st : Dict) : AgentContext.t :=
  AgentContext.mk "orchestrator" sid "system" "default" [] st None 0.

Definition two_sessions : ContextManager.t :=
  ContextManager.create_context
    (ContextManager.create_context (ContextManager.mk ∅ ∅ ∅)
       "a" (session "a" {["k" := VInt 1]}))
    "b" (session "b" ∅).

(** The two sessions while another task holds the lock of one of them. *)
Definition holding (sid : string) : ContextManager.t :=
  ContextManager.set_locked (SessionLock sid) true two_sessions.

(** An orchestrator with the five agents of the advisory workflow, a cap of
    [cap] concurrent agents and [running] calls in flight. *)
Definition staffed (cap running : Z) : @AgentOrchestrator.t runtime :=
  AgentOrchestrator.mk
    (list_to_map
       ((λ who, (who, agent who ok)) <$>
        ["data_sync_agent"; "ai_cfo_agent"; "forecasting_agent";
         "alert_agent"; "reporting_agent"]))
    ∅ true cap running.

(** A definition with a dependency cycle: "a" needs "b" and "b" needs "a". *)
Definition cyclic : WorkflowDefinition.t :=
  WorkflowDefinition.add_step
    (WorkflowEngine.agent_step "b" "B" "second" "ai_cfo_agent" 5) (Some ["a"])
  (WorkflowDefinition.add_step
    (WorkflowEngine.agent_step "a" "A" "first" "ai_cfo_agent" 5) (Some ["b"])
  (WorkflowDefinition.init "cyclic" "Cyclic" "two steps in a cycle" "cyclic")).

Definition engine_with (wtype : string) (d : WorkflowDefinition.t)
    : WorkflowEngine.t :=
  WorkflowEngine.mk
    (<[wtype := d]> (WorkflowEngine.workflow_definitions WorkflowEngine.init))
    ∅.

(** The replies of a run in which the forecasting agent is down. *)
Definition forecast_down : gmap string (Outcome PyVal) :=
  list_to_map
    [("data_sync_agent", ok); ("ai_cfo_agent", ok);
     ("forecasting_agent", Raised "model offline");
     ("alert_agent", ok); ("reporting_agent", ok)].

(** The advisory workflow run with the forecasting agent down. *)
Definition forecast_run :=
  WorkflowEngine.execute_workflow render (executor forecast_down) 5 1
    WorkflowEngine.init "advisory" (workflow "advisory") start.







(** An approval step whose timeout, in minutes, is beyond the year 9999. *)
Definition endless_approval : WorkflowStep.t :=
  WorkflowStep.mk "approval_check" APPROVAL "Transaction Approval"
    "Human approval for high-value transactions" None ∅ ∅
    (Some 6000000000).


(** The transactional workflow with nobody to decide on the approval. *)
Definition unattended : gmap string (Outcome PyVal) :=
  list_to_map
    [("ocr_agent", ok); ("data_sync_agent", ok); ("accounting_agent", ok)].

Definition unattended_run :=
  WorkflowEngine.execute_workflow render (executor unattended) 10 4000
    WorkflowEngine.init "transactional" (workflow "transactional") start.

(** Two contexts, one created at the start of the clock and one a minute
    later, and the world an hour and a minute after the start. *)
Definition aged : ContextManager.t :=
  ContextManager.create_context
    (ContextManager.create_context ContextManager.init
       "old" (session "old" ∅))
    "edge"
    (AgentContext.mk "orchestrator" "edge" "system" "default" [] ∅ None
       (minutes 1)).

Definition sweep_time : world := mk (minutes 61) 0 [] [].
End Script.

(** ** Notions of the specification *)

Module Spec.
(** A definition obtained from [WorkflowDefinition.__init__] by calls of
    [add_step]. *)
Inductive built : WorkflowDefinition.t → Prop :=
  | built_init wid nm descr wtype :
      built (WorkflowDefinition.init wid nm descr wtype)
  | built_add step deps d :
      built d → built (WorkflowDefinition.add_step step deps d).

(** [depends d s dep]: the step [s] names [dep] as a prerequisite. *)
Definition depends (d : WorkflowDefinition.t) (s dep : string) : Prop :=
  dep ∈ WorkflowDefinition.deps_of d s.

(** A directed acyclic graph over the steps: the step ids are distinct,
    every prerequisite of a step is a step, and no step is reached from
    itself along prerequisites. *)
Record dag (d : WorkflowDefinition.t) : Prop := {
  dag_unique : NoDup (WorkflowDefinition.step_order d);
  dag_closed : ∀ s dep,
    s ∈ WorkflowDefinition.step_order d → depends d s dep →
    dep ∈ WorkflowDefinition.step_order d;
  dag_acyclic : ∀ s, ¬ tc (depends d) s s;
}.

(** The ready set in the words of the specification: not completed, and
    the full dependency set is a subset of the completed steps. *)
Definition ready (d : WorkflowDefinition.t) (completed : list string)
    (sid : string) : Prop :=
  (sid ∉ completed) ∧ (WorkflowDefinition.deps_of d sid ⊆ completed).

#[global] Instance ready_dec d completed sid : Decision (ready d completed sid).
Proof. unfold ready. apply _. Defined.

(** Repeatedly take the ready set and mark all of its steps complete; the
    result lists the ready sets taken, as step ids. *)
Fixpoint traverse (fuel : nat) (d : WorkflowDefinition.t)
    (ws : WorkflowState.t) : list (list string) :=
  match fuel with
  | O => []
  | S fuel =>
      match WorkflowDefinition.get_ready_steps d
              (WorkflowState.steps_completed ws) with
      | Returned (step :: rest) =>
          let ids := WorkflowStep.step_id <$> step :: rest in
          ids :: traverse fuel d
                   (foldl (λ ws sid,
                             WorkflowState.complete_step sid
                               (WorkflowState.updated_at ws) ws) ws ids)
      | _ => []
      end
  end.

(** A sufficient test for [dag]: every prerequisite of a step was added
    before the step. *)
Definition position (d : WorkflowDefinition.t) (sid : string) : nat :=
  default (length (WorkflowDefinition.step_order d))
    (fst <$> list_find (eq sid) (WorkflowDefinition.step_order d)).

Definition added_in_order (d : WorkflowDefinition.t) : Prop :=
  NoDup (WorkflowDefinition.step_order d)
  ∧ map_Forall
      (λ s deps,
         Forall (λ dep, dep ∈ WorkflowDefinition.step_order d
                        ∧ (position d dep < position d s)%nat) deps)
      (WorkflowDefinition.dependencies d).

#[global] Instance added_in_order_dec d : Decision (added_in_order d).
Proof. unfold added_in_order. apply _. Defined.

(** The steps still to visit. *)
Definition pending (d : WorkflowDefinition.t) (completed : list string)
    : list string :=
  filter (λ s, s ∉ completed) (WorkflowDefinition.step_order d).

(** The result of a step counts as a success. *)
Definition succeeded (result : Dict) : bool :=
  truthy (dict_get result "success" (VBool false)).

(** Every step id is the key of its step, as [add_step] makes it. *)
Definition keyed (d : WorkflowDefinition.t) : Prop :=
  ∀ sid step, WorkflowDefinition.steps d !! sid = Some step →
              WorkflowStep.step_id step = sid.

(** The message that [execute_workflow] builds for a failed step. *)
Definition step_error (render : PyVal → string) (sid : string) (result : Dict)
    : string :=
  "Step " +:+ sid +:+ " failed: "
  +:+ py_str render (dict_get result "error" (VStr "Step execution failed")).

(** A run of [execute_workflow] that fails fast.  The run took the
    workflow state from [ws] to [ws'] and answered [d]; [history] lists the
    step results of its iterations. *)
Record fail_fast (render : PyVal → string) (def : WorkflowDefinition.t)
    (ws : WorkflowState.t) (d : Dict) (ws' : WorkflowState.t)
    (history : list (list (string * Dict))) : Prop := {
  (** A failed result belongs to the last iteration: nothing was dispatched
      after it.  The answer is the failure of the first failed step of that
      iteration, and no failed step is recorded as completed. *)
  ff_failed : ∀ i results sid r,
    history !! i = Some results → (sid, r) ∈ results → succeeded r = false →
    length history = S i
    ∧ (sid ∉ WorkflowState.steps_completed ws')
    ∧ ∃ (pre : list (string * Dict)) f r_f post,
        results = (pre ++ (f, r_f) :: post)%list
        ∧ Forall (λ sr, succeeded sr.2 = true) pre
        ∧ succeeded r_f = false
        ∧ d = WorkflowEngine.step_failed ws' f
        ∧ WorkflowState.error ws' = Some (step_error render f r_f)
        ∧ WorkflowState.status ws' = ERROR;
  (** No dispatched step has a failed step among its dependencies. *)
  ff_independent : ∀ i j results results' s f r,
    history !! i = Some results → s ∈ results.*1 →
    history !! j = Some results' → (f, r) ∈ results' → succeeded r = false →
    f ∉ WorkflowDefinition.deps_of def s;
  (** Nothing is rolled back: what was completed stays completed, in
      place, and so does every step of the iterations before the last. *)
  ff_prefix :
    WorkflowState.steps_completed ws `prefix_of` WorkflowState.steps_completed ws';
  ff_earlier : ∀ i results s,
    history !! i = Some results → (S i < length history)%nat →
    s ∈ results.*1 → s ∈ WorkflowState.steps_completed ws';
}.
Section reachable.
Context `{Runtime}.

(** The states of a context manager: the ones reached from an empty
    manager by calls that returned. *)
Inductive reachable : ContextManager.t → Prop :=
  | reach_init : reachable ContextManager.init
  | reach_create m session context :
      reachable m → reachable (ContextManager.create_context m session context)
  | reach_update m session updates merge b m' trace :
      reachable m →
      ContextManager.update_context_state m session updates merge
      = ContextManager.Done b m' trace →
      reachable m'
  | reach_share m source target keys b m' trace :
      reachable m →
      ContextManager.share_context_data m source target keys
      = ContextManager.Done b m' trace →
      reachable m'
  | reach_update_shared m company key value :
      reachable m →
      reachable (ContextManager.update_shared_state m company key value)
  | reach_cleanup m session :
      reachable m → reachable (ContextManager.cleanup_context m session).2
  | reach_clear m :
      reachable m → reachable (ContextManager.clear_all_contexts m).2
  | reach_workflow m workflow_state base_context w :
      reachable m →
      reachable
        (ContextManager.create_workflow_context m workflow_state
           base_context w).1.2.
End reachable.

(** The stages of the two workflow bodies of the orchestrator, in order:
    the agent asked and the step recorded. *)
Definition workflow_stages (wtype : string) : list (string * string) :=
  if String.eqb wtype "advisory" then
    [("data_sync_agent", "data_sync"); ("ai_cfo_agent", "analysis");
     ("forecasting_agent", "forecasting"); ("alert_agent", "alerts");
     ("reporting_agent", "reporting")]
  else if String.eqb wtype "transactional" then
    [("ocr_agent", "ocr_processing"); ("data_sync_agent", "standardization");
     ("accounting_agent", "accounting");
     ("reconciliation_agent", "reconciliation");
     ("compliance_agent", "compliance")]
  else [].

(** No registered agent raises, whatever it is asked. *)
Definition never_raises `{Runtime} (o : AgentOrchestrator.t) : Prop :=
  ∀ agent_id agent request context count w,
    AgentOrchestrator.agents o !! agent_id = Some agent →
    ∃ v w', agent request context count w = (Returned v, w').

(** The fields of a workflow state that the stages of a workflow body
    leave alone. *)
Definition same_identity (ws ws' : WorkflowState.t) : Prop :=
  WorkflowState.workflow_id ws' = WorkflowState.workflow_id ws
  ∧ WorkflowState.workflow_type ws' = WorkflowState.workflow_type ws
  ∧ WorkflowState.status ws' = WorkflowState.status ws
  ∧ WorkflowState.error ws' = WorkflowState.error ws.

(** Every active context has its lock, and the lock is free. *)
Definition locks_follow (m : ContextManager.t) : Prop :=
  ContextManager.context_locks m
  = (λ _, false) <$> ContextManager.active_contexts m.

(** Whether [share_context_data] copies the key: every key when [keys] is
    [None] or empty, the listed keys otherwise. *)
Definition shared_key (keys : option (list string)) (key : string) : Prop :=
  match keys with
  | Some (k :: ks) => key ∈ k :: ks
  | _ => True
  end.

#[global] Instance shared_key_dec keys key : Decision (shared_key keys key).
Proof. destruct keys as [[|k ks]|]; simpl; apply _. Defined.

Section polls.
Context `{Runtime}.




End polls.
End Spec.

(** * Theorems *)

(** ** Approvals ([agent_models.py]) *)

Section approvals.
Implicit Types (w : WorkflowState.t) (r : ApprovalRequest.t).

Lemma approve_in_unknown (l : list ApprovalRequest.t) rid approver ok note ts :
  (∀ r, r ∈ l → ApprovalRequest.id r ≠ rid) →
  WorkflowState.approve_in l rid approver ok note ts = None.
Proof.
  induction l as [|r l IH]; intros Hl; simpl; [done|].
  destruct (String.eqb_spec (ApprovalRequest.id r) rid) as [Heq|_].
  - exfalso. by apply (Hl r); [left|].
  - rewrite IH; [done|]. intros r' Hr'. apply Hl. by right.
Qed.


(** An approval that completes the required set puts the request in
    status [Approved], whatever its status was. *)
Lemma record_decision_approved r approver note ts :
  ApprovalRequest.is_approved
    (ApprovalRequest.append_approval (mkApproval approver true note ts) r)
    = true →
  ApprovalRequest.status
    (WorkflowState.record_decision approver true note ts r) = Approved.
Proof.
  intros Hr. unfold WorkflowState.record_decision. simpl.
  by rewrite Hr.
Qed.
End approvals.

(** C10. [approve_request] with a [request_id] that matches no request of
    [pending_approvals] returns [False] and leaves the workflow state as it
    was: no approval recorded, no status changed, [updated_at] untouched. *)
Theorem approve_request_unknown_id (w : WorkflowState.t)
    (request_id approver : string) (ok : bool) (note : option string)
    (t_stamp t_upd : Z) :
  (∀ r, r ∈ WorkflowState.pending_approvals w →
        ApprovalRequest.id r ≠ request_id) →
  WorkflowState.approve_request w request_id approver ok note t_stamp t_upd
  = (false, w).
Proof.
  intros Hw. unfold WorkflowState.approve_request.
  by rewrite approve_in_unknown.
Qed.

Lemma approve_request_unknown_id_witness :
  (∀ r, r ∈ WorkflowState.pending_approvals Script.waiting →
        ApprovalRequest.id r ≠ "req-2")
  ∧ WorkflowState.approve_request Script.waiting "req-2" "financial_manager"
      true None 5 6 = (false, Script.waiting).
Proof.
  assert (H : ∀ r, r ∈ WorkflowState.pending_approvals Script.waiting →
                   ApprovalRequest.id r ≠ "req-2").
  { intros r Hr. apply list_elem_of_singleton in Hr. by subst r. }
  split; [exact H|].
  exact (approve_request_unknown_id Script.waiting "req-2"
           "financial_manager" true None 5 6 H).
Defined.

(** C6, on the code.  A rejection puts the request in status [Rejected], but
    the status does not stay there: [approve_request] does not look at the
    current status, and a later approval that completes the required set
    moves the request to [Approved]. *)
Theorem rejected_request_becomes_approved :
  let w1 := (WorkflowState.approve_request Script.waiting "req-1"
               "financial_manager" false None 1 1).2 in
  let w2 := (WorkflowState.approve_request w1 "req-1"
               "financial_manager" true None 2 2).2 in
  ApprovalRequest.status <$> WorkflowState.pending_approvals Script.waiting
    = [Pending]
  ∧ ApprovalRequest.status <$> WorkflowState.pending_approvals w1 = [Rejected]
  ∧ ApprovalRequest.status <$> WorkflowState.pending_approvals w2 = [Approved].
Proof. by vm_compute. Qed.

(** *** The request that [approve_request] finds *)

Section approve_request.
Implicit Types (w : WorkflowState.t) (r : ApprovalRequest.t).

Lemma is_approved_spec r :
  ApprovalRequest.is_approved r = true
  ↔ ∀ a, a ∈ ApprovalRequest.required_approvers r →
         ∃ x, x ∈ ApprovalRequest.approvals r
              ∧ approver_id x = a ∧ approved x = true.
Proof.
  assert (Hby : ∀ a, a ∈ ApprovalRequest.approved_by r
                     ↔ ∃ x, x ∈ ApprovalRequest.approvals r
                            ∧ approver_id x = a ∧ approved x = true).
  { intros a. unfold ApprovalRequest.approved_by.
    rewrite list_elem_of_fmap. split.
    - intros (x & -> & [Hx Hin]%list_elem_of_filter). eauto.
    - intros (x & Hin & <- & Hx). exists x. split; [done|].
      by apply list_elem_of_filter. }
  unfold ApprovalRequest.is_approved.
  destruct (ApprovalRequest.required_approvers r) as [|a0 l] eqn:Hreq.
  - split; [|done]. by intros _ a ?%elem_of_nil.
  - rewrite <- Hreq. clear Hreq.
    rewrite <- Is_true_true, forallb_True, Forall_forall.
    split; intros Hall a Ha.
    + apply Hby. specialize (Hall a Ha). by apply bool_decide_unpack in Hall.
    + apply bool_decide_pack, Hby. by apply Hall.
Qed.

Lemma approve_in_first_match (pre post : list ApprovalRequest.t) r
    request_id approver ok note t_stamp :
  ApprovalRequest.id r = request_id →
  (∀ q, q ∈ pre → ApprovalRequest.id q ≠ request_id) →
  WorkflowState.approve_in (pre ++ r :: post) request_id approver ok note
    t_stamp
  = Some (pre ++ WorkflowState.record_decision approver ok note t_stamp r
                 :: post)%list.
Proof.
  intros Hr. induction pre as [|q pre IH]; intros Hpre; cbn.
  - by rewrite (proj2 (String.eqb_eq _ _) Hr).
  - rewrite (proj2 (String.eqb_neq _ _) (Hpre q ltac:(by left))).
    rewrite IH; [done|]. intros q' Hq'. apply Hpre. by right.
Qed.

(** What [approve_request] does to the request it finds.  The first
    request of [pending_approvals] with the id asked for, and no other,
    gets the decision appended to its approvals; the call returns [True]
    and stamps [updated_at].  The status becomes "rejected" on a
    rejection; on an approval it becomes "approved" when every required
    approver has an approval among the decisions recorded so far, whatever
    the status was, and stays as it was otherwise.  Later requests with the
    same id, and all the other fields, are untouched. *)
Theorem approve_request_first_match w request_id approver (ok : bool) note
    t_stamp t_upd (pre post : list ApprovalRequest.t) r :
  WorkflowState.pending_approvals w = (pre ++ r :: post)%list →
  ApprovalRequest.id r = request_id →
  (∀ q, q ∈ pre → ApprovalRequest.id q ≠ request_id) →
  ∃ r',
    WorkflowState.approve_request w request_id approver ok note t_stamp t_upd
    = (true,
       WorkflowState.with_pending_approvals (pre ++ r' :: post) t_upd w)
    ∧ ApprovalRequest.approvals r'
      = (ApprovalRequest.approvals r
         ++ [mkApproval approver ok note t_stamp])%list
    ∧ ApprovalRequest.set_status (ApprovalRequest.status r) r'
      = ApprovalRequest.append_approval
          (mkApproval approver ok note t_stamp) r
    ∧ ApprovalRequest.status r'
      = (if ok
         then if ApprovalRequest.is_approved r' then Approved
              else ApprovalRequest.status r
         else Rejected)
    ∧ (ApprovalRequest.is_approved r' = true
       ↔ ∀ a, a ∈ ApprovalRequest.required_approvers r →
              ∃ x, x ∈ ApprovalRequest.approvals r'
                   ∧ approver_id x = a ∧ approved x = true).
Proof.
  intros Hpending Hr Hpre.
  exists (WorkflowState.record_decision approver ok note t_stamp r).
  unfold WorkflowState.approve_request.
  rewrite Hpending, (approve_in_first_match pre post r) by done.
  split; [done|].
  assert (Hsame : ∀ s q, ApprovalRequest.is_approved
                           (ApprovalRequest.set_status s q)
                         = ApprovalRequest.is_approved q) by done.
  assert (Hreq : ApprovalRequest.required_approvers
                   (WorkflowState.record_decision approver ok note t_stamp r)
                 = ApprovalRequest.required_approvers r).
  { unfold WorkflowState.record_decision. by repeat case_match. }
  split_and!.
  - unfold WorkflowState.record_decision. by repeat case_match.
  - unfold WorkflowState.record_decision. destruct r.
    by repeat case_match.
  - unfold WorkflowState.record_decision.
    destruct ok; cbn [andb negb]; [|done].
    destruct (ApprovalRequest.is_approved (ApprovalRequest.append_approval _ r))
      eqn:Happ.
    + by rewrite Hsame, Happ.
    + by rewrite Happ.
  - rewrite is_approved_spec. by rewrite Hreq.
Qed.
End approve_request.

Lemma approve_request_first_match_witness :
  ∃ r',
    WorkflowState.approve_request Script.waiting "req-1" "financial_manager"
      true None 5 6
    = (true, WorkflowState.with_pending_approvals [r'] 6 Script.waiting)
    ∧ ApprovalRequest.approvals r'
      = [mkApproval "financial_manager" true None 5]
    ∧ ApprovalRequest.status r' = Approved.
Proof.
  destruct (approve_request_first_match Script.waiting "req-1"
              "financial_manager" true None 5 6 [] [] Script.request
              eq_refl eq_refl ltac:(by intros q ?%elem_of_nil))
    as (r' & Hcall & Happrovals & _ & Hstatus & Hiff).
  exists r'. split; [exact Hcall|]. split; [exact Happrovals|].
  rewrite Hstatus.
  assert (Happ : ApprovalRequest.is_approved r' = true).
  { apply Hiff. intros a Ha. exists (mkApproval "financial_manager" true None 5).
    rewrite Happrovals. apply list_elem_of_singleton in Ha as ->.
    split; [by left|done]. }
  by rewrite Happ.
Defined.

(** ** Context sharing ([context_manager.py]) *)

(** A call that shares a session with itself takes the session's lock and
    then waits for it. *)
Lemma share_context_data_self (m : ContextManager.t) (s : string)
    (keys : option (list string)) :
  is_Some (ContextManager.active_contexts m !! s) →
  ContextManager.context_locks m !! s = Some false →
  ∃ m', ContextManager.share_context_data m s s keys
        = ContextManager.Blocked (SessionLock s) m' [Acquire (SessionLock s)].
Proof.
  intros [c Hc] Hl. unfold ContextManager.share_context_data.
  rewrite Hc. unfold ContextManager.lock_of. rewrite Hl. simpl.
  rewrite Hl. simpl. rewrite lookup_insert_eq. simpl. eauto.
Qed.

(** C9, on the code.  With the lock of "b" held by another task, the call
    that shares "a" into "b" takes the lock of "a" and waits for the lock of
    "b"; with the lock of "a" held, the call that shares "b" into "a" takes
    the lock of "b" and waits for the lock of "a".  Each of the two locks is
    taken before the other by one of the calls; when both locks are free
    the two calls take them in opposite orders. *)
Lemma share_context_data_opposite_orders :
  let waits r on holding :=
    ∃ m', r = ContextManager.Blocked (SessionLock on) m'
                [Acquire (SessionLock holding)]
          ∧ ContextManager.locked m' (SessionLock holding) = true in
  waits (ContextManager.share_context_data (Script.holding "b") "a" "b" None)
    "b" "a"
  ∧ waits (ContextManager.share_context_data (Script.holding "a") "b" "a" None)
      "a" "b"
  ∧ ContextManager.acquired
      (ContextManager.trace_of
         (ContextManager.share_context_data Script.two_sessions "a" "b" None))
    = [SessionLock "a"; SessionLock "b"]
  ∧ ContextManager.acquired
      (ContextManager.trace_of
         (ContextManager.share_context_data Script.two_sessions "b" "a" None))
    = [SessionLock "b"; SessionLock "a"].
Proof. split_and!; [eexists; by vm_compute..|by vm_compute|by vm_compute]. Qed.

(** C9, amended.  [share_context_data] takes the lock of the source session
    first and the lock of the target session second, in the order of its
    arguments.  While the lock of the source is held by another task the
    call waits for it and has taken nothing, whether the lock of the target
    is free or not.  With the lock of the source free and the lock of the
    target held, the call takes the lock of the source and waits for the
    lock of the target, holding the first.  With both free it takes the
    source, then the target, releases them in the reverse order and
    returns [True] with both free again. *)
Theorem share_context_data_source_then_target (m : ContextManager.t)
    (source target : string) (keys : option (list string))
    (source_held target_held : bool) :
  is_Some (ContextManager.active_contexts m !! source) →
  is_Some (ContextManager.active_contexts m !! target) →
  ContextManager.context_locks m !! source = Some source_held →
  ContextManager.context_locks m !! target = Some target_held →
  source ≠ target →
  let call := ContextManager.share_context_data m source target keys in
  match source_held, target_held with
  | true, _ => call = ContextManager.Blocked (SessionLock source) m []
  | false, true =>
      ∃ m',
        call = ContextManager.Blocked (SessionLock target) m'
                 [Acquire (SessionLock source)]
        ∧ ContextManager.context_locks m' !! source = Some true
        ∧ ContextManager.context_locks m' !! target = Some true
        ∧ ContextManager.active_contexts m' = ContextManager.active_contexts m
  | false, false =>
      ∃ m',
        call = ContextManager.Done true m'
                 [Acquire (SessionLock source); Acquire (SessionLock target);
                  Release (SessionLock target); Release (SessionLock source)]
        ∧ ContextManager.context_locks m' !! source = Some false
        ∧ ContextManager.context_locks m' !! target = Some false
  end.
Proof.
  intros [cs Hs] [ct Ht] Hls Hlt Hne call. subst call.
  unfold ContextManager.share_context_data, ContextManager.lock_of.
  rewrite Hs, Ht, Hls, Hlt. simpl. rewrite Hls.
  destruct source_held; simpl; [done|].
  rewrite lookup_insert_ne by done. rewrite Hlt.
  destruct target_held; simpl.
  - eexists. split; [reflexivity|]. simpl.
    by rewrite lookup_insert_eq, lookup_insert_ne.
  - eexists. split; [reflexivity|].
    unfold ContextManager.share_body. simpl. rewrite Hs, Ht. simpl.
    split; by simplify_map_eq.
Qed.

Lemma share_context_data_source_then_target_witness :
  (∃ m',
     ContextManager.share_context_data (Script.holding "b") "a" "b" None
     = ContextManager.Blocked (SessionLock "b") m' [Acquire (SessionLock "a")]
     ∧ ContextManager.context_locks m' !! "a" = Some true
     ∧ ContextManager.context_locks m' !! "b" = Some true
     ∧ ContextManager.active_contexts m'
       = ContextManager.active_contexts (Script.holding "b"))
  ∧ ContextManager.share_context_data (Script.holding "a") "a" "b" None
    = ContextManager.Blocked (SessionLock "a") (Script.holding "a") [].
Proof.
  split.
  - apply (share_context_data_source_then_target (Script.holding "b")
             "a" "b" None false true).
    + vm_compute. eauto.
    + vm_compute. eauto.
    + reflexivity.
    + reflexivity.
    + discriminate.
  - apply (share_context_data_source_then_target (Script.holding "a")
             "a" "b" None true false).
    + vm_compute. eauto.
    + vm_compute. eauto.
    + reflexivity.
    + reflexivity.
    + discriminate.
Defined.

(** ** Direct dispatch ([orchestrator.py]) *)

Section dispatch.
Context `{Runtime}.
Implicit Types (o : AgentOrchestrator.t) (w : World).

(** Undoing the increment gives the orchestrator back. *)
Lemma with_count_restore o :
  AgentOrchestrator.with_count
    (AgentOrchestrator._active_agent_count o + 1 - 1)
    (AgentOrchestrator.with_count
       (AgentOrchestrator._active_agent_count o + 1) o) = o.
Proof.
  destruct o as [ags wfs run cap n]. unfold AgentOrchestrator.with_count.
  simpl. f_equal. lia.
Qed.

(** The three failures built by the dispatcher carry [success: False], and
    the first names the agent that was asked for. *)
Lemma dispatch_dict_failures (agent_id session e : string) :
  AgentOrchestrator.dispatch_dict agent_id session AgentOrchestrator.NotFound
    !! "success" = Some (VBool false)
  ∧ AgentOrchestrator.dispatch_dict agent_id session AgentOrchestrator.NotFound
    !! "error" = Some (VStr ("Agent '" +:+ agent_id +:+ "' not found"))
  ∧ AgentOrchestrator.dispatch_dict agent_id session
      AgentOrchestrator.CapacityExceeded
    !! "success" = Some (VBool false)
  ∧ AgentOrchestrator.dispatch_dict agent_id session
      (AgentOrchestrator.ExecutionFailed e)
    !! "success" = Some (VBool false).
Proof. by repeat split. Qed.

(** C4.  [_route_to_agent] answers with its not-found failure exactly when
    the agent id is not registered; for a registered agent it answers with
    its capacity failure when the counter has reached the maximum; otherwise
    the agent runs with the counter incremented, its return or its exception
    becomes the answer, and in every case the orchestrator, and so the
    counter, is afterwards what it was before the call.  The not-found
    failure is [success: False] with the error "Agent '<id>' not found",
    the capacity failure [success: False] with the error "Maximum
    concurrent agents reached"; neither runs an agent.  The failure built
    for an exception is [success: False] with the error "Agent execution
    failed: <message>"; no failure built for a registered agent carries the
    not-found error. *)
Theorem route_to_agent_dispatch o (agent_id : string) (request : PyVal)
    (context : AgentContext.t) w (r : AgentOrchestrator.Dispatch)
    (o' : AgentOrchestrator.t) (w' : World) :
  AgentOrchestrator.dispatch o agent_id request context w = (r, o', w') →
  let answer :=
    (AgentOrchestrator._route_to_agent o agent_id request context w).1.1 in
  let not_found := "Agent '" +:+ agent_id +:+ "' not found" in
  let failure (e : string) :=
    answer !! "success" = Some (VBool false)
    ∧ answer !! "error" = Some (VStr e)
    ∧ answer !! "session_id" = Some (VStr (AgentContext.session_id context)) in
  (r = AgentOrchestrator.NotFound ↔ AgentOrchestrator.agents o !! agent_id = None)
  ∧ (is_Some (AgentOrchestrator.agents o !! agent_id) →
     AgentOrchestrator._max_concurrent_agents o
       ≤ AgentOrchestrator._active_agent_count o →
     r = AgentOrchestrator.CapacityExceeded ∧ w' = w)
  ∧ (∀ agent, AgentOrchestrator.agents o !! agent_id = Some agent →
     AgentOrchestrator._active_agent_count o
       < AgentOrchestrator._max_concurrent_agents o →
     ∃ result,
       agent request (Some context)
         (AgentOrchestrator._active_agent_count o + 1) w = (result, w')
       ∧ r = match result with
             | Returned v =>
                 AgentOrchestrator.Completed (AgentOrchestrator._resolve_result v)
             | Raised e => AgentOrchestrator.ExecutionFailed e
             end
       ∧ match result with
         | Returned (VDict d) => answer = d
         | Returned v =>
             answer !! "success" = Some (VBool true)
             ∧ answer !! "result" = Some v
         | Raised e => failure ("Agent execution failed: " +:+ e)
         end)
  ∧ o' = o
  ∧ AgentOrchestrator._route_to_agent o agent_id request context w
    = (AgentOrchestrator.dispatch_dict agent_id
         (AgentContext.session_id context) r, o, w')
  ∧ match r with
    | AgentOrchestrator.NotFound => failure not_found ∧ w' = w
    | AgentOrchestrator.CapacityExceeded =>
        failure "Maximum concurrent agents reached"
        ∧ answer !! "error" ≠ Some (VStr not_found)
        ∧ w' = w
    | AgentOrchestrator.ExecutionFailed e =>
        failure ("Agent execution failed: " +:+ e)
        ∧ answer !! "error" ≠ Some (VStr not_found)
    | AgentOrchestrator.Completed normalized => answer = normalized
    end.
Proof.
  intros Hd answer not_found failure.
  assert (Hroute : AgentOrchestrator._route_to_agent o agent_id request context w
                   = (AgentOrchestrator.dispatch_dict agent_id
                        (AgentContext.session_id context) r, o', w')).
  { unfold AgentOrchestrator._route_to_agent. by rewrite Hd. }
  assert (Hanswer : answer = AgentOrchestrator.dispatch_dict agent_id
                               (AgentContext.session_id context) r)
    by (unfold answer; by rewrite Hroute).
  clearbody answer. subst answer.
  unfold AgentOrchestrator.dispatch in Hd.
  destruct (AgentOrchestrator.agents o !! agent_id) as [agent|] eqn:Hag.
  - destruct (Z.leb_spec (AgentOrchestrator._max_concurrent_agents o)
                (AgentOrchestrator._active_agent_count o)) as [Hfull|Hroom].
    + injection Hd as <- <- <-.
      split; [|split; [|split; [|split; [|split]]]].
      * split; discriminate.
      * done.
      * intros agent' _ Hlt. lia.
      * done.
      * done.
      * by split_and!.
    + simpl in Hd.
      destruct (agent request (Some context)
                  (AgentOrchestrator._active_agent_count o + 1) w)
        as [result w1] eqn:Hrun.
      rewrite with_count_restore in Hd. injection Hd as <- <- <-.
      split; [|split; [|split; [|split; [|split]]]].
      * split; [by destruct result | discriminate].
      * intros _ Hge. lia.
      * intros agent' [= <-] _. exists result.
        split; [done|]. split; [done|].
        destruct result as [v|e]; [by destruct v|by split_and!].
      * done.
      * done.
      * destruct result as [v|e]; [done|]. by split_and!.
  - injection Hd as <- <- <-.
    split; [|split; [|split; [|split; [|split]]]].
    + done.
    + by intros [? ?].
    + done.
    + done.
    + done.
    + by split_and!.
Qed.
End dispatch.

Lemma route_to_agent_dispatch_witness :
  let answer o agent_id :=
    AgentOrchestrator._route_to_agent o agent_id (VStr "cash flow")
      Script.context Script.start in
  (answer (Script.staffed 2 1) "tax_agent").1.1 !! "error"
  = Some (VStr "Agent 'tax_agent' not found")
  ∧ (answer (Script.staffed 1 1) "ai_cfo_agent").1.1 !! "error"
    = Some (VStr "Maximum concurrent agents reached")
  ∧ answer (Script.staffed 2 1) "ai_cfo_agent"
    = ({["success" := VBool true]}, Script.staffed 2 1,
       Script.note "ai_cfo_agent" 2 Script.start).
Proof.
  intros answer.
  assert (Hmissing :
            AgentOrchestrator.dispatch (Script.staffed 2 1) "tax_agent"
              (VStr "cash flow") Script.context Script.start
            = (AgentOrchestrator.NotFound, Script.staffed 2 1, Script.start))
    by (vm_compute; reflexivity).
  assert (Hfull :
            AgentOrchestrator.dispatch (Script.staffed 1 1) "ai_cfo_agent"
              (VStr "cash flow") Script.context Script.start
            = (AgentOrchestrator.CapacityExceeded, Script.staffed 1 1,
               Script.start))
    by (vm_compute; reflexivity).
  assert (Hrun :
            AgentOrchestrator.dispatch (Script.staffed 2 1) "ai_cfo_agent"
              (VStr "cash flow") Script.context Script.start
            = (AgentOrchestrator.Completed {["success" := VBool true]},
               Script.staffed 2 1, Script.note "ai_cfo_agent" 2 Script.start))
    by (vm_compute; reflexivity).
  destruct (route_to_agent_dispatch _ _ _ _ _ _ _ _ Hmissing)
    as (_ & _ & _ & _ & _ & (_ & Hnot_found & _) & _).
  destruct (route_to_agent_dispatch _ _ _ _ _ _ _ _ Hfull)
    as (_ & _ & _ & _ & _ & (_ & Hcapacity & _) & _).
  destruct (route_to_agent_dispatch _ _ _ _ _ _ _ _ Hrun)
    as (_ & _ & _ & _ & Hroute & _).
  exact (conj Hnot_found (conj Hcapacity Hroute)).
Defined.

(** ** Workflows of the orchestrator ([orchestrator.py]) *)

(** C5, on the code.  With the cap at one agent and one call in flight, a
    direct dispatch is refused and runs nothing, while the advisory workflow
    runs its five agents; each of them sees the counter at one: the workflow
    neither checks nor increments it. *)
Theorem advisory_workflow_bypasses_dispatch_counter :
  let o := Script.staffed 1 1 in
  let direct :=
    AgentOrchestrator.dispatch o "data_sync_agent" (VStr "sync")
      Script.context Script.start in
  let workflow :=
    AgentOrchestrator._execute_advisory_workflow o
      (Script.workflow "advisory") Script.start in
  direct.1.1 = AgentOrchestrator.CapacityExceeded
  ∧ Script.invoked direct.2 = []
  ∧ workflow.1.1 !! "success" = Some (VBool true)
  ∧ Script.invoked workflow.2
    = [("data_sync_agent", 1); ("ai_cfo_agent", 1); ("forecasting_agent", 1);
       ("alert_agent", 1); ("reporting_agent", 1)].
Proof. by vm_compute. Qed.

Section route_to_workflow.
Context `{Runtime}.
Variable render : PyVal → string.

(** Whatever the workflow type and however the run ends, the workflow state
    stays in [active_workflows] under the id drawn for it. *)
Lemma route_to_workflow_entry_stays (o : AgentOrchestrator.t)
    (wtype : string) (request : PyVal) (context : AgentContext.t) (w : World) :
  is_Some
    (AgentOrchestrator.active_workflows
       (AgentOrchestrator._route_to_workflow render o wtype request context w).1.2
     !! (uuid4 w).1).
Proof.
  unfold AgentOrchestrator._route_to_workflow.
  destruct (uuid4 w) as [wid w1]. destruct (utcnow w1) as [t1 w2].
  destruct (utcnow w2) as [t2 w3].
  repeat case_match; simpl; rewrite lookup_insert_eq; eauto.
Qed.
End route_to_workflow.

(** C8, on the code.  A successful advisory run leaves its workflow state,
    now [COMPLETED], in the orchestrator's [active_workflows]; so does a run
    of an unknown workflow type, in status [ERROR]. *)
Theorem route_to_workflow_keeps_finished_workflow :
  let run wtype :=
    AgentOrchestrator._route_to_workflow Script.render (Script.staffed 10 0)
      wtype (VStr "quarterly review") Script.context Script.start in
  (run "advisory").1.1 !! "success" = Some (VBool true)
  ∧ WorkflowState.status
      <$> AgentOrchestrator.active_workflows (run "advisory").1.2 !! "id-0"
    = Some COMPLETED
  ∧ (run "payroll").1.1 !! "success" = Some (VBool false)
  ∧ WorkflowState.status
      <$> AgentOrchestrator.active_workflows (run "payroll").1.2 !! "id-0"
    = Some ERROR.
Proof. by vm_compute. Qed.

(** ** The workflow engine ([workflow_engine.py]) *)

(** C1, on the code.  On a definition whose two steps wait for each other
    no step is ever ready: the loop is left at once, nothing is dispatched,
    and the run is reported as a success with no completed step and the
    workflow in status [COMPLETED]. *)
Theorem execute_workflow_reports_stuck_as_success :
  let e := Script.engine_with "cyclic" Script.cyclic in
  let run :=
    WorkflowEngine.execute_workflow Script.render (Script.executor ∅) 1 1 e
      "cyclic" (Script.workflow "cyclic") Script.start in
  WorkflowDefinition.step_order Script.cyclic = ["a"; "b"]
  ∧ WorkflowDefinition.get_ready_steps Script.cyclic [] = Returned []
  ∧ (λ r, r.1.1.1.1 !! "success") <$> run = Some (Some (VBool true))
  ∧ (λ r, r.1.1.1.1 !! "completed_steps") <$> run = Some (Some (VList []))
  ∧ (λ r, WorkflowState.status r.1.1.2) <$> run = Some COMPLETED
  ∧ (λ r, r.2) <$> run = Some [].
Proof. by vm_compute. Qed.

(** *** The ready set and the traversal by layers *)

Section ready_steps.
Implicit Types (d : WorkflowDefinition.t) (completed : list string).

Lemma built_steps d :
  Spec.built d →
  (∀ sid, sid ∈ WorkflowDefinition.step_order d →
          is_Some (WorkflowDefinition.steps d !! sid))
  ∧ (∀ sid step, WorkflowDefinition.steps d !! sid = Some step →
                 WorkflowStep.step_id step = sid).
Proof.
  induction 1 as [|step deps d _ [IHo IHk]]; simpl.
  - split; [by intros sid ?%elem_of_nil | by intros sid step ?%lookup_empty_Some].
  - split.
    + intros sid [Hin| ->%list_elem_of_singleton]%elem_of_app.
      * destruct (decide (WorkflowStep.step_id step = sid)) as [<-|Hne].
        -- rewrite lookup_insert_eq. eauto.
        -- rewrite lookup_insert_ne by done. auto.
      * rewrite lookup_insert_eq. eauto.
    + intros sid st [[<- <-]|[Hne Hst]]%lookup_insert_Some; [done | eauto].
Qed.

Lemma is_ready_spec d completed sid :
  WorkflowDefinition.is_ready d completed sid = true ↔ Spec.ready d completed sid.
Proof.
  unfold WorkflowDefinition.is_ready, Spec.ready.
  rewrite andb_true_iff, negb_true_iff, bool_decide_eq_false, forallb_forall.
  split; intros [Hs Hd]; (split; [done|]).
  - intros dep Hdep. eapply bool_decide_eq_true_1, Hd. by apply list_elem_of_In.
  - intros dep Hdep%list_elem_of_In. by apply bool_decide_eq_true_2, Hd.
Qed.

Lemma ready_loop_spec d completed order :
  (∀ sid, sid ∈ order → is_Some (WorkflowDefinition.steps d !! sid)) →
  ∃ ready_steps,
    WorkflowDefinition.ready_loop d completed order = Returned ready_steps
    ∧ Forall2 (λ sid step, WorkflowDefinition.steps d !! sid = Some step)
        (filter (Spec.ready d completed) order) ready_steps.
Proof.
  induction order as [|sid order IH]; intros Hsteps; simpl.
  - exists []. by split.
  - destruct IH as (rs & Hrs & Hall).
    { intros s Hs. apply Hsteps. by right. }
    rewrite filter_cons.
    destruct (WorkflowDefinition.is_ready d completed sid) eqn:Hready.
    + apply is_ready_spec in Hready. rewrite decide_True by done.
      destruct (Hsteps sid) as [step Hstep]; [by left|].
      rewrite Hstep, Hrs. simpl. exists (step :: rs). split; [done|].
      by constructor.
    + rewrite decide_False; [eauto|].
      intros Hr%is_ready_spec. congruence.
Qed.
End ready_steps.

Lemma filter_ext_elem {A} (P Q : A → Prop) `{!∀ x, Decision (P x)}
    `{!∀ x, Decision (Q x)} (l : list A) :
  (∀ x, x ∈ l → P x ↔ Q x) → filter P l = filter Q l.
Proof.
  induction l as [|x l IH]; intros Hl; [done|].
  rewrite !filter_cons. rewrite IH by (intros y Hy; apply Hl; by right).
  destruct (decide (P x)) as [HP|HP], (decide (Q x)) as [HQ|HQ]; try done.
  - destruct HQ. by apply Hl; [left|].
  - destruct HP. by apply Hl; [left|].
Qed.

Section traversal.
Variable d : WorkflowDefinition.t.
Hypothesis Hbuilt : Spec.built d.
Hypothesis Hdag : Spec.dag d.

Abbreviation order := (WorkflowDefinition.step_order d).
Abbreviation complete_all :=
  (foldl (λ ws sid,
            WorkflowState.complete_step sid (WorkflowState.updated_at ws) ws)).

Lemma depends_reach s x : s ∈ order → tc (Spec.depends d) s x → x ∈ order.
Proof.
  intros Hs Htc. induction Htc as [s x Hsx|s y x Hsy _ IH].
  - by eapply Spec.dag_closed.
  - apply IH. by eapply Spec.dag_closed.
Qed.

Lemma depends_sn s : s ∈ order → sn (Spec.depends d) s.
Proof.
  intros Hs. apply tc_finite_sn.
  - intros x Hx. by apply (Spec.dag_acyclic d Hdag x).
  - exists order. intros x Hx. by eapply depends_reach.
Qed.

Lemma progress completed s :
  s ∈ order → s ∉ completed → ∃ r, r ∈ order ∧ Spec.ready d completed r.
Proof.
  intros Hs. induction (depends_sn s Hs) as [s _ IH]. intros Hnc.
  destruct (decide (Forall (λ dep, dep ∈ completed)
                      (WorkflowDefinition.deps_of d s))) as [Hall|Hex].
  - exists s. split; [done|]. split; [done|].
    intros dep Hdep. by eapply Forall_forall in Hall.
  - apply not_Forall_Exists in Hex; [|apply _].
    apply Exists_exists in Hex as (dep & Hdep & Hdnc).
    apply (IH dep); [done| |done].
    by eapply Spec.dag_closed.
Qed.

Lemma complete_all_elem ws ids x :
  x ∈ WorkflowState.steps_completed (complete_all ws ids)
  ↔ x ∈ WorkflowState.steps_completed ws ∨ x ∈ ids.
Proof.
  revert ws. induction ids as [|sid ids IH]; intros ws; simpl.
  - rewrite elem_of_nil. tauto.
  - rewrite IH, elem_of_cons. unfold WorkflowState.complete_step.
    case_bool_decide as Hin; simpl.
    + split; [tauto|]. intros [?|[->|?]]; tauto.
    + rewrite elem_of_app, list_elem_of_singleton. tauto.
Qed.

Lemma ready_ids completed :
  ∃ ready_steps,
    WorkflowDefinition.get_ready_steps d completed = Returned ready_steps
    ∧ WorkflowStep.step_id <$> ready_steps = filter (Spec.ready d completed) order
    ∧ Forall2 (λ sid step, WorkflowDefinition.steps d !! sid = Some step)
        (filter (Spec.ready d completed) order) ready_steps.
Proof.
  destruct (built_steps d Hbuilt) as [Hsteps Hkeyed].
  destruct (ready_loop_spec d completed order Hsteps) as (rs & Hrs & Hall).
  exists rs. split; [done|]. split; [|done].
  clear Hrs. revert Hall. generalize (filter (Spec.ready d completed) order).
  intros sids Hall.
  induction Hall as [|sid step sids rs Hstep _ IH]; [done|].
  rewrite fmap_cons. f_equal; [by apply Hkeyed | done].
Qed.

Lemma traverse_visits fuel ws :
  (length (Spec.pending d (WorkflowState.steps_completed ws)) ≤ fuel)%nat →
  concat (Spec.traverse fuel d ws) ≡ₚ Spec.pending d (WorkflowState.steps_completed ws).
Proof.
  revert ws. induction fuel as [|fuel IH]; intros ws Hfuel.
  - apply Nat.le_0_r, nil_length_inv in Hfuel. by rewrite Hfuel.
  - simpl. set (c := WorkflowState.steps_completed ws) in *.
    destruct (ready_ids c) as (rs & -> & Hids & _).
    assert (Hready : filter (Spec.ready d c) (Spec.pending d c)
                     = filter (Spec.ready d c) order).
    { unfold Spec.pending. rewrite list_filter_filter. apply filter_ext_elem.
      intros x _. unfold Spec.ready. tauto. }
    destruct rs as [|step rest].
    + simpl in Hids. destruct (Spec.pending d c) as [|s rest] eqn:Hpend; [done|].
      assert (Hs : s ∈ Spec.pending d c) by (rewrite Hpend; by left).
      apply list_elem_of_filter in Hs as [Hnc Hs].
      destruct (progress c s Hs Hnc) as (r & Hr & Hrr).
      assert (Hin : r ∈ filter (Spec.ready d c) order)
        by (by apply list_elem_of_filter).
      rewrite <- Hids in Hin. by apply elem_of_nil in Hin.
    + set (ids := WorkflowStep.step_id <$> step :: rest) in *.
      assert (Hnext : Spec.pending d (WorkflowState.steps_completed (complete_all ws ids))
                      = filter (λ s, ¬ Spec.ready d c s) (Spec.pending d c)).
      { unfold Spec.pending at 2. rewrite list_filter_filter.
        apply filter_ext_elem. intros x Hx.
        rewrite complete_all_elem, Hids, list_elem_of_filter. fold c. tauto. }
      assert (Hsplit : ids ++ Spec.pending d (WorkflowState.steps_completed
                                         (complete_all ws ids)) ≡ₚ Spec.pending d c).
      { rewrite Hnext, Hids, <- Hready. apply filter_app_complement. }
      simpl. rewrite IH; [done|].
      apply Permutation_length in Hsplit. rewrite length_app in Hsplit.
      subst ids. simpl in Hsplit. lia.
Qed.
End traversal.

Lemma filter_all {A} (P : A → Prop) `{!∀ x, Decision (P x)} (l : list A) :
  (∀ x, x ∈ l → P x) → filter P l = l.
Proof.
  induction l as [|x l IH]; intros Hl; [done|].
  rewrite filter_cons, decide_True by (apply Hl; by left).
  f_equal. apply IH. intros y Hy. apply Hl. by right.
Qed.

Lemma looked_up_elem {V} (m : gmap string V) (keys : list string)
    (vals : list V) (v : V) :
  Forall2 (λ k x, m !! k = Some x) keys vals →
  v ∈ vals ↔ ∃ k, k ∈ keys ∧ m !! k = Some v.
Proof.
  induction 1 as [|k x keys vals Hkx _ IH].
  - split; [by intros ?%elem_of_nil | by intros (k & ?%elem_of_nil & _)].
  - rewrite elem_of_cons, IH. split.
    + intros [->|(k' & Hk' & Hv)].
      * exists k. split; [by left | done].
      * exists k'. split; [by right | done].
    + intros (k' & Hk' & Hv). apply elem_of_cons in Hk' as [->|Hk'].
      * left. congruence.
      * right. eauto.
Qed.

Lemma added_in_order_dag d : Spec.added_in_order d → Spec.dag d.
Proof.
  intros [Hnodup Hdeps].
  assert (Hdep : ∀ s dep, Spec.depends d s dep →
            dep ∈ WorkflowDefinition.step_order d
            ∧ (Spec.position d dep < Spec.position d s)%nat).
  { intros s dep. unfold Spec.depends, WorkflowDefinition.deps_of.
    destruct (WorkflowDefinition.dependencies d !! s) as [l|] eqn:Hl; simpl.
    - intros Hin. specialize (Hdeps s l Hl). simpl in Hdeps.
      by eapply Forall_forall in Hdeps.
    - by intros ?%elem_of_nil. }
  split; [done| |].
  - intros s dep _ Hsd. by destruct (Hdep s dep Hsd).
  - intros s Hs.
    assert (Hlt : ∀ x y, tc (Spec.depends d) x y →
              (Spec.position d y < Spec.position d x)%nat).
    { induction 1 as [x y Hxy|x y z Hxy _ IH].
      - by destruct (Hdep x y Hxy).
      - apply Hdep in Hxy as [_ Hxy]. lia. }
    apply Hlt in Hs. lia.
Qed.

Lemma advisory_dag : Spec.dag WorkflowEngine.advisory_workflow.
Proof. apply added_in_order_dag. apply (bool_decide_unpack _). by vm_compute. Qed.

(** C2.  For a definition made by [add_step], [get_ready_steps] returns,
    in the order of [step_order], exactly the steps that are not completed
    and whose dependencies are all among the completed steps.  When the
    definition is moreover a directed acyclic graph over its steps, taking
    the ready set and marking its steps complete, over and over from no
    completed step, visits every step exactly once: the ready sets taken,
    put end to end, are a rearrangement of [step_order] without
    repetition. *)
Theorem get_ready_steps_layers (d : WorkflowDefinition.t) :
  Spec.built d →
  (∀ completed, ∃ ready_steps,
     WorkflowDefinition.get_ready_steps d completed = Returned ready_steps
     ∧ WorkflowStep.step_id <$> ready_steps
       = filter (Spec.ready d completed) (WorkflowDefinition.step_order d)
     ∧ ∀ step, step ∈ ready_steps ↔
         ∃ sid, sid ∈ WorkflowDefinition.step_order d
                ∧ Spec.ready d completed sid
                ∧ WorkflowDefinition.steps d !! sid = Some step)
  ∧ (Spec.dag d → ∀ ws fuel,
       WorkflowState.steps_completed ws = [] →
       (length (WorkflowDefinition.step_order d) ≤ fuel)%nat →
       concat (Spec.traverse fuel d ws) ≡ₚ WorkflowDefinition.step_order d
       ∧ NoDup (concat (Spec.traverse fuel d ws))).
Proof.
  intros Hbuilt. split.
  - intros completed.
    destruct (ready_ids d Hbuilt completed) as (rs & Hrs & Hids & Hall).
    exists rs. split_and!; [done..|].
    intros step. rewrite (looked_up_elem _ _ _ _ Hall).
    setoid_rewrite list_elem_of_filter. split.
    + intros (sid & [Hr Ho] & Hst). eauto.
    + intros (sid & Ho & Hr & Hst). eauto.
  - intros Hdag ws fuel Hnone Hfuel.
    assert (Hpending : Spec.pending d (WorkflowState.steps_completed ws)
                       = WorkflowDefinition.step_order d).
    { unfold Spec.pending. rewrite Hnone. apply filter_all.
      intros x _. apply not_elem_of_nil. }
    assert (Hperm : concat (Spec.traverse fuel d ws)
                    ≡ₚ WorkflowDefinition.step_order d).
    { rewrite <- Hpending. apply traverse_visits; [done..|].
      by rewrite Hpending. }
    split; [done|]. rewrite Hperm. by apply Spec.dag_unique.
Qed.

Lemma get_ready_steps_layers_witness :
  Spec.built WorkflowEngine.advisory_workflow
  ∧ Spec.traverse 5 WorkflowEngine.advisory_workflow (Script.workflow "advisory")
    = [["data_sync"]; ["financial_analysis"]; ["forecasting"; "risk_assessment"];
       ["executive_reporting"]]
  ∧ concat (Spec.traverse 5 WorkflowEngine.advisory_workflow
              (Script.workflow "advisory"))
    ≡ₚ WorkflowDefinition.step_order WorkflowEngine.advisory_workflow
  ∧ NoDup (concat (Spec.traverse 5 WorkflowEngine.advisory_workflow
                     (Script.workflow "advisory"))).
Proof.
  assert (Hbuilt : Spec.built WorkflowEngine.advisory_workflow)
    by (repeat constructor).
  split; [exact Hbuilt|]. split; [by vm_compute|].
  apply (get_ready_steps_layers WorkflowEngine.advisory_workflow Hbuilt).
  - apply added_in_order_dag. apply (bool_decide_unpack _). by vm_compute.
  - reflexivity.
  - vm_compute. lia.
Defined.

(** *** Fail-fast runs *)

Lemma odict_set_keys {V} (l : list (string * V)) (k : string) (v : V) :
  (odict_set l k v).*1 = if bool_decide (k ∈ l.*1) then l.*1 else (l.*1 ++ [k])%list.
Proof.
  induction l as [|[k' v'] l IH]; [done|].
  cbn [odict_set].
  destruct (String.eqb_spec k' k) as [->|Hne]; rewrite !fmap_cons; cbn [fst].
  - rewrite bool_decide_eq_true_2; [done | by left].
  - rewrite IH. case_bool_decide as Hin.
    + rewrite bool_decide_eq_true_2; [done | by right].
    + rewrite bool_decide_eq_false_2; [done|].
      intros [?|?]%elem_of_cons; congruence.
Qed.

Lemma odict_set_NoDup {V} (l : list (string * V)) (k : string) (v : V) :
  NoDup l.*1 → NoDup (odict_set l k v).*1.
Proof.
  intros Hl. rewrite odict_set_keys. case_bool_decide as Hin; [done|].
  apply NoDup_app. split_and!; [done| |apply NoDup_singleton].
  by intros x Hx ->%list_elem_of_singleton.
Qed.

Lemma get_ready_steps_sound (def : WorkflowDefinition.t)
    (completed : list string) (ready_steps : list WorkflowStep.t) :
  Spec.keyed def →
  WorkflowDefinition.get_ready_steps def completed = Returned ready_steps →
  ∀ s, s ∈ WorkflowStep.step_id <$> ready_steps → Spec.ready def completed s.
Proof.
  intros Hkeyed. unfold WorkflowDefinition.get_ready_steps.
  generalize (WorkflowDefinition.step_order def). intros order.
  revert ready_steps. induction order as [|sid order IH]; intros rs; simpl.
  - intros [= <-] s ?%elem_of_nil. done.
  - destruct (WorkflowDefinition.is_ready def completed sid) eqn:Hready; [|by apply IH].
    destruct (WorkflowDefinition.steps def !! sid) as [step|] eqn:Hstep; [|done].
    destruct (WorkflowDefinition.ready_loop def completed order) as [rs'|]; [|done].
    simpl. intros [= <-] s. rewrite fmap_cons, elem_of_cons. intros [->|Hs].
    + rewrite (Hkeyed sid step Hstep). by apply is_ready_spec.
    + by eapply IH.
Qed.

Lemma approve_request_steps_completed ws rid approver ok note t1 t2 :
  WorkflowState.steps_completed
    (WorkflowState.approve_request ws rid approver ok note t1 t2).2
  = WorkflowState.steps_completed ws.
Proof. unfold WorkflowState.approve_request. by case_match. Qed.

Lemma apply_calls_steps_completed ws calls :
  WorkflowState.steps_completed (foldl apply_call ws calls)
  = WorkflowState.steps_completed ws.
Proof.
  revert ws. induction calls as [|c calls IH]; intros ws; simpl; [done|].
  rewrite IH. apply approve_request_steps_completed.
Qed.

Section fail_fast.
Context `{Runtime}.
Variable render : PyVal → string.
Variable agent_executor :
  option string → Dict → option AgentContext.t → World → Outcome PyVal * World.

Abbreviation completed := WorkflowState.steps_completed.

Lemma approval_wait_steps_completed fuel idx req timeout ws w r ws' w' :
  WorkflowEngine.approval_wait fuel idx req timeout ws w = Some (r, ws', w') →
  completed ws' = completed ws.
Proof.
  revert req ws w. induction fuel as [|fuel IH]; intros req ws w; simpl; [done|].
  destruct (utcnow w) as [now w1].
  repeat case_match; try (by intros [= <- <- <-]).
  intros Hrec%IH. by rewrite Hrec, apply_calls_steps_completed.
Qed.

Lemma approval_request_steps_completed step ws w :
  completed (WorkflowEngine.approval_request step ws w).1.2 = completed ws.
Proof.
  unfold WorkflowEngine.approval_request.
  destruct (utcnow w) as [ta wa].
  destruct (if Z.eqb (int_or (WorkflowStep.timeout_minutes step) 0) 0
            then (0, wa) else utcnow wa) as [tb wb].
  destruct (uuid4 wb) as [rid wc], (utcnow wc) as [tc wd].
  destruct (utcnow wd) as [td we].
  destruct (WorkflowState.add_approval_request _ _ _ _ _ _ _ _ _ _ _)
    as [[req ws1]|e] eqn:Hadd; [|done].
  unfold WorkflowState.add_approval_request in Hadd.
  destruct (match WorkflowStep.timeout_minutes step with
            | Some m => _ | None => _ end) as [expires_at|e];
    [|done]. by injection Hadd as <- <-.
Qed.

Lemma approval_begin_steps_completed step ws w :
  completed (WorkflowEngine.approval_begin step ws w).1.2 = completed ws.
Proof.
  unfold WorkflowEngine.approval_begin.
  pose proof (approval_request_steps_completed step ws w) as Hreq.
  destruct (WorkflowEngine.approval_request step ws w)
    as [[[[idx req]|e] ws1] w1]; [|done].
  destruct (utcnow w1) as [t0 w2]. by destruct (plus_minutes _ _).
Qed.

Lemma execute_approval_step_steps_completed fuel step ws w r ws' w' :
  WorkflowEngine._execute_approval_step fuel step ws w = Some (r, ws', w') →
  completed ws' = completed ws.
Proof.
  unfold WorkflowEngine._execute_approval_step.
  pose proof (approval_begin_steps_completed step ws w) as Hbegin.
  destruct (WorkflowEngine.approval_begin step ws w)
    as [[[[[idx req] timeout]|e] ws1] w1].
  - cbn [fst snd] in Hbegin. by intros ->%approval_wait_steps_completed.
  - cbn [fst snd] in Hbegin. destruct (utcnow w1) as [now w2].
    by intros [= <- <- <-].
Qed.
End fail_fast.

Section fail_fast2.
Context `{Runtime}.
Variable render : PyVal → string.
Variable agent_executor :
  option string → Dict → option AgentContext.t → World → Outcome PyVal * World.

Abbreviation completed := WorkflowState.steps_completed.
Abbreviation all_succeeded :=
  (Forall (λ sr : string * Dict, Spec.succeeded sr.2 = true)).

Lemma await_steps_spec fuel steps results ws w results' ws' w' :
  WorkflowEngine.await_steps agent_executor fuel steps results ws w
  = Some (results', ws', w') →
  completed ws' = completed ws
  ∧ (NoDup results.*1 → NoDup results'.*1)
  ∧ (∀ s, s ∈ results'.*1 →
          s ∈ results.*1 ∨ s ∈ WorkflowStep.step_id <$> steps).
Proof.
  revert results ws w.
  induction steps as [|step steps IH]; intros results ws w;
    cbn [WorkflowEngine.await_steps].
  - intros [= <- <- <-]. auto.
  - assert (Hkeys : ∀ r s,
              s ∈ (odict_set results (WorkflowStep.step_id step) r).*1 →
              s ∈ results.*1 ∨ s = WorkflowStep.step_id step).
    { intros r s. rewrite odict_set_keys. case_bool_decide; [auto|].
      rewrite elem_of_app, list_elem_of_singleton. auto. }
    rewrite fmap_cons. setoid_rewrite elem_of_cons.
    destruct (WorkflowStep.step_type step).
    + destruct (WorkflowEngine._execute_agent_step _ _ _ _) as [r w1].
      intros (Hc & Hnd & Hin)%IH. split_and!; [done| |].
      * intros Hr. by apply Hnd, odict_set_NoDup.
      * intros s [Hs%Hkeys|Hs]%Hin; tauto.
    + destruct (WorkflowEngine._execute_approval_step _ _ _ _) as [[[r ws1] w1]|] eqn:Happ;
        [|done].
      simpl. intros (Hc & Hnd & Hin)%IH.
      apply execute_approval_step_steps_completed in Happ.
      split_and!; [congruence| |].
      * intros Hr. by apply Hnd, odict_set_NoDup.
      * intros s [Hs%Hkeys|Hs]%Hin; tauto.
    + intros (Hc & Hnd & Hin)%IH. split_and!; [done..|]. intros s Hs%Hin. tauto.
    + intros (Hc & Hnd & Hin)%IH. split_and!; [done..|]. intros s Hs%Hin. tauto.
    + intros (Hc & Hnd & Hin)%IH. split_and!; [done..|]. intros s Hs%Hin. tauto.
Qed.

(** What the loop over the step results does: it stops at the first failed
    result, after marking the results before it as completed. *)
Lemma process_results_spec results ws w :
  NoDup results.*1 →
  (∀ s, s ∈ results.*1 → s ∉ completed ws) →
  ∃ ws' w',
    (all_succeeded results
     ∧ WorkflowEngine.process_results render results ws w = (None, ws', w')
     ∧ completed ws' = (completed ws ++ results.*1)%list)
    ∨ (∃ (pre : list (string * Dict)) f r_f post,
         results = (pre ++ (f, r_f) :: post)%list
         ∧ all_succeeded pre
         ∧ Spec.succeeded r_f = false
         ∧ WorkflowEngine.process_results render results ws w
           = (Some (WorkflowEngine.step_failed ws' f), ws', w')
         ∧ completed ws' = (completed ws ++ pre.*1)%list
         ∧ WorkflowState.error ws' = Some (Spec.step_error render f r_f)
         ∧ WorkflowState.status ws' = ERROR).
Proof.
  revert ws w. induction results as [|[sid r] results IH]; intros ws w Hnd Hfresh.
  - exists ws, w. left. simpl. by rewrite app_nil_r.
  - simpl. fold (Spec.succeeded r).
    destruct (Spec.succeeded r) eqn:Hok.
    + destruct (utcnow w) as [now w1].
      rewrite fmap_cons in Hnd. apply NoDup_cons in Hnd as [Hsid Hnd].
      assert (Hc : completed (WorkflowState.complete_step sid now ws)
                   = (completed ws ++ [sid])%list).
      { unfold WorkflowState.complete_step.
        rewrite bool_decide_eq_false_2; [done|]. apply Hfresh. by left. }
      destruct (IH (WorkflowState.complete_step sid now ws) w1 Hnd)
        as (ws' & w' & [(Hall & Hrun & Hdone)|
                        (pre & f & r_f & post & -> & Hall & Hf & Hrun & Hdone & Herr)]).
      { intros s Hs. rewrite Hc, elem_of_app, list_elem_of_singleton.
        intros [Hin| ->]; [|done]. revert Hin. apply Hfresh. by right. }
      * exists ws', w'. left. split_and!; [by constructor|done|].
        rewrite Hdone, Hc, <- app_assoc. done.
      * exists ws', w'. right. exists ((sid, r) :: pre), f, r_f, post.
        split_and!; [done|by constructor|done|done| |apply Herr|apply Herr].
        rewrite Hdone, Hc, <- app_assoc. done.
    + destruct (utcnow w) as [now w1]. eexists _, _. right.
      exists [], sid, r, results. split_and!; try done.
      simpl. by rewrite app_nil_r.
Qed.

Lemma NoDup_keys_agree {V} (l : list (string * V)) k v v' :
  NoDup l.*1 → (k, v) ∈ l → (k, v') ∈ l → v = v'.
Proof.
  induction l as [|[k0 v0] l IH]; [by intros _ ?%elem_of_nil|].
  rewrite fmap_cons, NoDup_cons. cbn [fst]. intros [Hk0 Hnd] Hv Hv'.
  apply elem_of_cons in Hv as [Hv|Hv], Hv' as [Hv'|Hv'].
  - congruence.
  - injection Hv as -> ->. destruct Hk0.
    by apply (list_elem_of_fmap_2 fst l (k0, v')).
  - injection Hv' as -> ->. destruct Hk0.
    by apply (list_elem_of_fmap_2 fst l (k0, v)).
  - by apply IH.
Qed.

Ltac empty_history :=
  intros;
  match goal with
  | Hi : [] !! _ = Some _ |- _ => by rewrite lookup_nil in Hi
  | Hi : [_] !! S _ = Some _ |- _ => by rewrite lookup_cons, lookup_nil in Hi
  end.

Section run_loop.
Variables (def : WorkflowDefinition.t) (wtype : string) (pfuel : nat).
Hypothesis Hkeyed : Spec.keyed def.

Abbreviation run_loop fuel :=
  (WorkflowEngine.run_loop render agent_executor fuel pfuel def wtype).

(** The iteration on a non-empty ready list: the keys of its results are
    ready steps, without repetition. *)
Lemma execute_steps_ready ws w ready_steps results ws1 w1 :
  WorkflowDefinition.get_ready_steps def (completed ws) = Returned ready_steps →
  WorkflowEngine._execute_steps agent_executor pfuel ready_steps ws w
  = Some (results, ws1, w1) →
  completed ws1 = completed ws
  ∧ NoDup results.*1
  ∧ ∀ s, s ∈ results.*1 → Spec.ready def (completed ws) s.
Proof.
  intros Hready (Hc & Hnd & Hkeys)%await_steps_spec. split_and!; [done| |].
  - apply Hnd. constructor.
  - intros s [[]%elem_of_nil|Hs]%Hkeys.
    by eapply get_ready_steps_sound.
Qed.

Lemma run_loop_facts fuel ws w d ws' w' history :
  run_loop fuel ws w = Some (d, ws', w', history) →
  completed ws `prefix_of` completed ws'
  ∧ (∀ i results s, history !! i = Some results → s ∈ results.*1 →
       WorkflowDefinition.deps_of def s ⊆ completed ws' ∧ s ∉ completed ws)
  ∧ (∀ i results s, history !! i = Some results → (S i < length history)%nat →
       s ∈ results.*1 → s ∈ completed ws')
  ∧ (∀ i results sid r,
       history !! i = Some results → (sid, r) ∈ results →
       Spec.succeeded r = false →
       length history = S i
       ∧ (sid ∉ completed ws')
       ∧ ∃ (pre : list (string * Dict)) f r_f post,
           results = (pre ++ (f, r_f) :: post)%list
           ∧ all_succeeded pre
           ∧ Spec.succeeded r_f = false
           ∧ d = WorkflowEngine.step_failed ws' f
           ∧ WorkflowState.error ws' = Some (Spec.step_error render f r_f)
           ∧ WorkflowState.status ws' = ERROR).
Proof.
  revert ws w d ws' w' history.
  induction fuel as [|fuel IH]; intros ws w d ws' w' history; [done|].
  cbn [WorkflowEngine.run_loop].
  destruct (WorkflowDefinition.get_ready_steps def (completed ws))
    as [[|step rest]|e] eqn:Hready.
  - destruct (utcnow w) as [now w1], (utcnow w1) as [now' w2].
    intros [= <- <- <- <-]. split_and!; [done|..]; empty_history.
  - destruct (WorkflowEngine._execute_steps _ _ _ _ _) as [[[results ws1] w1]|]
      eqn:Hexec; [|done].
    destruct (execute_steps_ready _ _ _ _ _ _ Hready Hexec) as (Hc1 & Hnd & Hrdy).
    cbn [mbind option_bind].
    destruct (process_results_spec results ws1 w1 Hnd)
      as (ws2 & w2 & [(Hall & Hproc & Hc2)|
                      (pre & f & r_f & post & Hres & Hall & Hf & Hproc & Hc2 & Herr & Hst)]).
    { intros s Hs. rewrite Hc1. by apply Hrdy. }
    + rewrite Hproc.
      destruct (WorkflowEngine.run_loop _ _ _ _ _ _ ws2 w2)
        as [[[[d0 ws3] w3] h]|] eqn:Hrec; [|done].
      intros [= <- <- <- <-].
      apply IH in Hrec as (P1 & P2 & P3 & P4).
      assert (Hsub : completed ws ⊆ completed ws2).
      { rewrite Hc2, Hc1. intros x Hx. apply elem_of_app. by left. }
      split_and!.
      * etrans; [|exact P1]. rewrite Hc2, Hc1. by apply prefix_app_r.
      * intros [|i] res s Hi Hs.
        -- injection Hi as <-. destruct (Hrdy s Hs) as [Hs1 Hs2].
           split; [|done]. intros x Hx%Hs2%Hsub. by eapply elem_of_prefix.
        -- destruct (P2 i res s Hi Hs) as [Hd Hn]. split; [done|].
           intros Hin%Hsub. done.
      * intros [|i] res s Hi Hlt Hs.
        -- injection Hi as <-. eapply elem_of_prefix; [|exact P1].
           rewrite Hc2. apply elem_of_app. by right.
        -- eapply P3; [exact Hi| |done]. simpl in Hlt. lia.
      * intros [|i] res sid r Hi Hr Hfail.
        -- injection Hi as <-. eapply Forall_forall in Hall; [|exact Hr].
           simpl in Hall. congruence.
        -- destruct (P4 i res sid r Hi Hr Hfail) as (Hlen & Hrest).
           split; [simpl; by rewrite Hlen | done].
    + rewrite Hproc. intros [= <- <- <- <-].
      assert (Hsub : completed ws ⊆ completed ws2).
      { rewrite Hc2, Hc1. intros x Hx. apply elem_of_app. by left. }
      split_and!.
      * rewrite Hc2, Hc1. by apply prefix_app_r.
      * intros [|i] res s Hi Hs; [|empty_history].
        injection Hi as <-. destruct (Hrdy s Hs) as [Hs1 Hs2].
        split; [|done]. intros x Hx%Hs2%Hsub. done.
      * intros [|i] res s Hi Hlt Hs; simpl in Hlt; lia.
      * intros [|i] res sid r Hi Hr Hfail; [|empty_history].
        injection Hi as <-. split; [done|]. split.
        -- rewrite Hc2, Hc1, elem_of_app. intros [Hin|Hin].
           ++ by destruct (Hrdy sid (list_elem_of_fmap_2 fst _ _ Hr)).
           ++ apply list_elem_of_fmap in Hin as ([sid' r'] & -> & Hin).
              cbn [fst] in Hr.
              assert (Hr' : (sid', r') ∈ results).
              { rewrite Hres. apply elem_of_app. by left. }
              assert (r = r') as -> by by eapply NoDup_keys_agree.
              eapply Forall_forall in Hall; [|exact Hin].
              simpl in Hall. congruence.
        -- by exists pre, f, r_f, post.
  - destruct (utcnow w) as [now w1].
    intros [= <- <- <- <-]. split_and!; [done|..]; empty_history.
Qed.

(** A failed result ends the run in the iteration that produced it. *)
Lemma run_loop_failed_layer fuel ws w step rest results ws1 w1 :
  WorkflowDefinition.get_ready_steps def (completed ws)
  = Returned (step :: rest) →
  WorkflowEngine._execute_steps agent_executor pfuel (step :: rest) ws w
  = Some (results, ws1, w1) →
  Exists (λ sr, Spec.succeeded sr.2 = false) results →
  ∃ d ws2 w2,
    run_loop (S fuel) ws w = Some (d, ws2, w2, [results])
    ∧ d !! "success" = Some (VBool false)
    ∧ ∃ f, d !! "failed_step" = Some (VStr f) ∧ f ∈ results.*1.
Proof.
  intros Hready Hexec Hex. cbn [WorkflowEngine.run_loop].
  rewrite Hready, Hexec. cbn [mbind option_bind].
  destruct (execute_steps_ready _ _ _ _ _ _ Hready Hexec) as (Hc1 & Hnd & Hrdy).
  destruct (process_results_spec results ws1 w1 Hnd)
    as (ws2 & w2 & [(Hall & _)|
                    (pre & f & r_f & post & Hres & _ & _ & Hproc & _)]).
  { intros s Hs. rewrite Hc1. by apply Hrdy. }
  - apply Exists_exists in Hex as (sr & Hsr & Hfail).
    eapply Forall_forall in Hall; [|exact Hsr]. simpl in Hall. congruence.
  - rewrite Hproc. exists (WorkflowEngine.step_failed ws2 f), ws2, w2.
    split_and!; [done..|]. exists f. split; [done|].
    rewrite Hres, fmap_app, fmap_cons, elem_of_app, elem_of_cons. auto.
Qed.
End run_loop.

Lemma execute_workflow_run_loop fuel pfuel e wtype def ws w d e' ws' w' history :
  WorkflowEngine.workflow_definitions e !! wtype = Some def →
  WorkflowEngine.execute_workflow render agent_executor fuel pfuel e wtype ws w
  = Some (d, e', ws', w', history) →
  ∃ now w0,
    utcnow w = (now, w0)
    ∧ WorkflowEngine.run_loop render agent_executor fuel pfuel def wtype
        (WorkflowState.set_status PROCESSING now ws) w0
      = Some (d, ws', w', history)
    ∧ e' = WorkflowEngine.clean_up
             (WorkflowEngine.mk (WorkflowEngine.workflow_definitions e)
                (<[WorkflowState.workflow_id ws := ws]>
                   (WorkflowEngine.active_executions e)))
             (WorkflowState.workflow_id ws).
Proof.
  intros Hdef. unfold WorkflowEngine.execute_workflow. rewrite Hdef.
  destruct (utcnow w) as [now w0].
  destruct (WorkflowEngine.run_loop _ _ _ _ _ _ _ _)
    as [[[[d0 ws0] w1] h]|] eqn:Hrun; [|done].
  intros [= <- <- <- <- <-]. by exists now, w0.
Qed.
End fail_fast2.

(** C3.  Take a definition whose steps are stored under their own ids, as
    [add_step] stores them.  In every run of [execute_workflow] that returns, a failed step
    result (an explicit [success: False], a raised exception, or a missing
    [success]) belongs to the last iteration: the run returned right after
    that iteration, with [success: False], [failed_step] the first failed
    step of the iteration and the error naming it; no step that was
    dispatched has a failed step among its dependencies; and the steps
    completed before, and in the earlier iterations, are still recorded in
    [steps_completed].  Conversely, an iteration whose results hold a
    failure makes the loop return in that very iteration. *)
Theorem execute_workflow_fail_fast `{Runtime} (render : PyVal → string)
    (agent_executor :
       option string → Dict → option AgentContext.t → World
       → Outcome PyVal * World)
    (e : WorkflowEngine.t) (wtype : string) (def : WorkflowDefinition.t) :
  WorkflowEngine.workflow_definitions e !! wtype = Some def →
  Spec.keyed def →
  (∀ fuel pfuel ws w d e' ws' w' history,
     WorkflowEngine.execute_workflow render agent_executor fuel pfuel e wtype
       ws w = Some (d, e', ws', w', history) →
     Spec.fail_fast render def ws d ws' history)
  ∧ (∀ fuel pfuel ws w step rest results ws1 w1,
       WorkflowDefinition.get_ready_steps def (WorkflowState.steps_completed ws)
       = Returned (step :: rest) →
       WorkflowEngine._execute_steps agent_executor pfuel (step :: rest) ws w
       = Some (results, ws1, w1) →
       Exists (λ sr, Spec.succeeded sr.2 = false) results →
       ∃ d ws2 w2,
         WorkflowEngine.run_loop render agent_executor (S fuel) pfuel def
           wtype ws w = Some (d, ws2, w2, [results])
         ∧ d !! "success" = Some (VBool false)
         ∧ ∃ f, d !! "failed_step" = Some (VStr f) ∧ f ∈ results.*1).
Proof.
  intros Hdef Hkeyed. split.
  - intros fuel pfuel ws w d e' ws' w' history Hrun.
    destruct (execute_workflow_run_loop _ _ _ _ _ _ _ _ _ _ _ _ _ _ Hdef Hrun)
      as (now & w0 & _ & Hloop & _).
    apply (run_loop_facts _ _ _ _ _ Hkeyed) in Hloop as (P1 & P2 & P3 & P4).
    split; [exact P4| |exact P1|exact P3].
    intros i j results results' s f r Hi Hs Hj Hf Hfail.
    destruct (P2 i results s Hi Hs) as [Hdeps _].
    destruct (P4 j results' f r Hj Hf Hfail) as (_ & Hnot & _).
    intros Hin%Hdeps. done.
  - intros fuel pfuel ws w step rest results ws1 w1.
    by apply run_loop_failed_layer.
Qed.

Lemma forecast_run_facts d e' ws' w' history :
  Script.forecast_run = Some (d, e', ws', w', history) →
  d !! "failed_step" = Some (VStr "forecasting")
  ∧ (λ results : list (string * Dict), results.*1) <$> history
    = [["data_sync"]; ["financial_analysis"]; ["forecasting"; "risk_assessment"]]
  ∧ WorkflowState.steps_completed ws' = ["data_sync"; "financial_analysis"].
Proof.
  intros Hrun.
  assert (Hfacts :
            match Script.forecast_run with
            | Some (d, _, ws', _, history) =>
                (d !! "failed_step",
                 (λ results : list (string * Dict), results.*1) <$> history,
                 WorkflowState.steps_completed ws')
            | None => (None, [], [])
            end
            = (Some (VStr "forecasting"),
               [["data_sync"]; ["financial_analysis"];
                ["forecasting"; "risk_assessment"]],
               ["data_sync"; "financial_analysis"]))
    by (vm_compute; reflexivity).
  rewrite Hrun in Hfacts. by injection Hfacts as -> -> ->.
Qed.

Lemma forecast_run_returns : Script.forecast_run ≠ None.
Proof.
  intros Hrun.
  assert (Hsome : match Script.forecast_run with
                  | Some _ => true
                  | None => false
                  end = true)
    by (vm_compute; reflexivity).
  by rewrite Hrun in Hsome.
Qed.

Lemma advisory_workflow_keyed : Spec.keyed WorkflowEngine.advisory_workflow.
Proof.
  refine (proj2 (built_steps WorkflowEngine.advisory_workflow _)).
  repeat constructor.
Qed.

Lemma execute_workflow_fail_fast_witness :
  ∃ d e' ws' w' history,
    Script.forecast_run = Some (d, e', ws', w', history)
    ∧ (d !! "failed_step" = Some (VStr "forecasting")
       ∧ (λ results : list (string * Dict), results.*1) <$> history
         = [["data_sync"]; ["financial_analysis"];
            ["forecasting"; "risk_assessment"]]
       ∧ WorkflowState.steps_completed ws' = ["data_sync"; "financial_analysis"])
    ∧ Spec.fail_fast Script.render WorkflowEngine.advisory_workflow
        (Script.workflow "advisory") d ws' history.
Proof.
  destruct Script.forecast_run as [[[[[d e'] ws'] w'] history]|] eqn:Hrun;
    [|destruct (forecast_run_returns Hrun)].
  exists d, e', ws', w', history. split; [reflexivity|].
  split; [exact (forecast_run_facts d e' ws' w' history Hrun)|].
  exact (proj1 (@execute_workflow_fail_fast Script.runtime Script.render
                  (Script.executor Script.forecast_down) WorkflowEngine.init
                  "advisory" WorkflowEngine.advisory_workflow eq_refl
                  advisory_workflow_keyed)
           5%nat 1%nat _ _ _ _ _ _ _ Hrun).
Defined.

(** *** The approval step *)

Section approval.
Context `{Runtime}.
Implicit Types (req : ApprovalRequest.t) (ws : WorkflowState.t) (w : World).





End approval.

Section approval_ids.
Context `{Runtime}.
Implicit Types (req : ApprovalRequest.t) (ws : WorkflowState.t) (w : World).








End approval_ids.






(** The overflow on the code: a timeout of six thousand million minutes
    ends beyond the year 9999; the step fails with the message of the
    error, and no request is appended. *)
Lemma endless_approval_overflows :
  (λ r, (r.1.1 !! "success", r.1.1 !! "error", r.1.1 !! "approval_id",
         WorkflowState.pending_approvals r.1.2))
    <$> WorkflowEngine._execute_approval_step 1 Script.endless_approval
          (Script.workflow "transactional") Script.start
  = Some (Some (VBool false), Some (VStr "date value out of range"), None, []).
Proof. by vm_compute. Qed.

(** The transactional workflow with nobody to decide: the approval step
    times out after an hour and the workflow fails with its id, the three
    steps before it still completed. *)
Lemma unattended_approval_fails_workflow :
  (λ r, (r.1.1.1.1 !! "success", r.1.1.1.1 !! "failed_step",
         r.1.1.1.1 !! "error", WorkflowState.steps_completed r.1.1.2,
         Script.now r.1.2)) <$> Script.unattended_run
  = Some (Some (VBool false), Some (VStr "approval_check"),
          Some (VStr "Step approval_check failed: Approval timeout"),
          ["document_processing"; "data_standardization"; "accounting_entries"],
          seconds 3600).
Proof. by vm_compute. Qed.

(** *** The engine's table of active executions *)

(** Once the workflow type is known, [execute_workflow] registers the
    workflow state in [active_executions] and its [finally] block removes
    it: whenever the call returns, whatever the answer, the table has no
    entry under the workflow id, and the definitions are untouched. *)
Lemma execute_workflow_cleans_up `{Runtime} (render : PyVal → string)
    (agent_executor :
       option string → Dict → option AgentContext.t → World
       → Outcome PyVal * World)
    (fuel pfuel : nat) (e : WorkflowEngine.t) (wtype : string)
    (ws : WorkflowState.t) (w : World) (d : Dict) (e' : WorkflowEngine.t)
    (ws' : WorkflowState.t) (w' : World)
    (history : list (list (string * Dict))) :
  is_Some (WorkflowEngine.workflow_definitions e !! wtype) →
  WorkflowEngine.execute_workflow render agent_executor fuel pfuel e wtype
    ws w = Some (d, e', ws', w', history) →
  WorkflowEngine.active_executions e' !! WorkflowState.workflow_id ws = None
  ∧ WorkflowEngine.workflow_definitions e'
    = WorkflowEngine.workflow_definitions e.
Proof.
  intros [def Hdef] Hrun.
  destruct (execute_workflow_run_loop _ _ _ _ _ _ _ _ _ _ _ _ _ _ Hdef Hrun)
    as (now & w0 & _ & _ & ->).
  unfold WorkflowEngine.clean_up. cbn [WorkflowEngine.active_executions].
  rewrite lookup_insert_eq.
  rewrite bool_decide_eq_true_2 by eauto.
  cbn [WorkflowEngine.active_executions WorkflowEngine.workflow_definitions].
  by rewrite lookup_delete_eq.
Qed.

Lemma execute_workflow_cleans_up_witness :
  ∃ d e' ws' w' history,
    Script.forecast_run = Some (d, e', ws', w', history)
    ∧ WorkflowEngine.active_executions e' !! "wf-1" = None
    ∧ WorkflowEngine.workflow_definitions e'
      = WorkflowEngine.workflow_definitions WorkflowEngine.init.
Proof.
  destruct Script.forecast_run as [[[[[d e'] ws'] w'] history]|] eqn:Hrun;
    [|destruct (forecast_run_returns Hrun)].
  exists d, e', ws', w', history. split; [reflexivity|].
  exact (@execute_workflow_cleans_up Script.runtime Script.render
           (Script.executor Script.forecast_down) 5%nat 1%nat
           WorkflowEngine.init "advisory" (Script.workflow "advisory")
           Script.start d e' ws' w' history
           (ex_intro _ WorkflowEngine.advisory_workflow eq_refl) Hrun).
Defined.

Lemma share_context_data_self_witness :
  ∃ m',
    ContextManager.share_context_data Script.two_sessions "a" "a" None
    = ContextManager.Blocked (SessionLock "a") m' [Acquire (SessionLock "a")].
Proof.
  apply (share_context_data_self Script.two_sessions "a" None).
  - vm_compute. eauto.
  - reflexivity.
Defined.

(** ** The states of the context manager ([context_manager.py]) *)

Section context_manager.
Context `{Runtime}.
Implicit Types (m : ContextManager.t) (c : AgentContext.t).

Lemma locks_follow_active m session :
  Spec.locks_follow m →
  is_Some (ContextManager.active_contexts m !! session) →
  ContextManager.context_locks m !! session = Some false.
Proof. intros -> [c Hc]. by rewrite lookup_fmap, Hc. Qed.

Lemma copy_keys_lookup (keys : list string) (source target : Dict) key :
  ContextManager.copy_keys keys source target !! key
  = if decide (key ∈ keys)
    then match source !! key with Some v => Some v | None => target !! key end
    else target !! key.
Proof.
  unfold ContextManager.copy_keys. revert target.
  induction keys as [|k keys IH]; intros target; [done|].
  cbn [foldl]. rewrite IH.
  destruct (decide (key = k)) as [->|Hne].
  - rewrite (decide_True (P := k ∈ k :: keys)) by by left.
    destruct (source !! k) as [v|] eqn:Hk.
    + rewrite lookup_insert_eq. by case_decide.
    + by case_decide.
  - assert (Hother : match source !! k with
                      | Some v => <[k := v]> target
                      | None => target
                      end !! key = target !! key).
    { destruct (source !! k); [by rewrite lookup_insert_ne|done]. }
    rewrite Hother.
    destruct (decide (key ∈ keys)) as [Hin|Hnin].
    + by rewrite decide_True by by right.
    + rewrite decide_False; [done|]. by intros [?|?]%elem_of_cons.
Qed.

(** On a session whose lock is free, [update_context_state] takes the
    lock, writes the state and frees the lock. *)
Lemma update_context_state_free m session updates merge c :
  ContextManager.active_contexts m !! session = Some c →
  ContextManager.context_locks m !! session = Some false →
  ContextManager.update_context_state m session updates merge
  = ContextManager.Done true
      (ContextManager.mk
         (<[session :=
              AgentContext.with_state c
                (if merge then updates ∪ AgentContext.state c else updates)]>
            (ContextManager.active_contexts m))
         (ContextManager.shared_state m) (ContextManager.context_locks m))
      [Acquire (SessionLock session); Release (SessionLock session)].
Proof.
  intros Hc Hl. unfold ContextManager.update_context_state,
    ContextManager.lock_of. rewrite Hc, Hl. cbn. rewrite Hl. cbn.
  rewrite Hc. cbn. rewrite insert_insert_eq, (insert_id _ _ _ Hl). done.
Qed.

(** On two distinct sessions whose locks are free, [share_context_data]
    takes both locks, writes the state of the target and frees both. *)
Lemma share_context_data_free m source target keys cs ct :
  source ≠ target →
  ContextManager.active_contexts m !! source = Some cs →
  ContextManager.active_contexts m !! target = Some ct →
  ContextManager.context_locks m !! source = Some false →
  ContextManager.context_locks m !! target = Some false →
  ContextManager.share_context_data m source target keys
  = ContextManager.Done true
      (ContextManager.mk
         (<[target :=
              AgentContext.with_state ct
                (match keys with
                 | Some (k :: ks) =>
                     ContextManager.copy_keys (k :: ks) (AgentContext.state cs)
                       (AgentContext.state ct)
                 | _ => AgentContext.state cs ∪ AgentContext.state ct
                 end)]>
            (ContextManager.active_contexts m))
         (ContextManager.shared_state m) (ContextManager.context_locks m))
      [Acquire (SessionLock source); Acquire (SessionLock target);
       Release (SessionLock target); Release (SessionLock source)].
Proof.
  intros Hne Hs Ht Hls Hlt.
  unfold ContextManager.share_context_data, ContextManager.lock_of.
  rewrite Hs, Ht, Hls, Hlt. cbn. rewrite Hls. cbn.
  rewrite lookup_insert_ne by done. rewrite Hlt. cbn.
  unfold ContextManager.share_body. cbn. rewrite Hs, Ht. cbn.
  f_equal. f_equal.
  apply map_eq. intros i.
  destruct (decide (i = source)) as [->|Hi]; [by rewrite lookup_insert_eq|].
  rewrite lookup_insert_ne by done.
  destruct (decide (i = target)) as [->|Hi']; [by rewrite lookup_insert_eq|].
  by rewrite !lookup_insert_ne by done.
Qed.

Lemma reachable_locks_follow m : Spec.reachable m → Spec.locks_follow m.
Proof.
  unfold Spec.locks_follow.
  induction 1 as [|m session context _ IH
                  |m session updates merge b m' trace _ IH Hcall
                  |m source target keys b m' trace _ IH Hcall
                  |m company key value _ IH
                  |m session _ IH
                  |m _ IH
                  |m ws base w _ IH].
  - cbn. by rewrite fmap_empty.
  - cbn. by rewrite fmap_insert, IH.
  - destruct (ContextManager.active_contexts m !! session) as [c|] eqn:Hc.
    + rewrite (update_context_state_free m session updates merge c Hc) in Hcall
        by (apply locks_follow_active; eauto).
      injection Hcall as <- <- <-. cbn.
      rewrite fmap_insert, <- IH. symmetry. apply insert_id.
      apply locks_follow_active; eauto.
    + unfold ContextManager.update_context_state in Hcall. rewrite Hc in Hcall.
      by injection Hcall as <- <- <-.
  - destruct (ContextManager.active_contexts m !! source) as [cs|] eqn:Hs,
      (ContextManager.active_contexts m !! target) as [ct|] eqn:Ht.
    + destruct (decide (source = target)) as [->|Hne].
      * assert (Hl : ContextManager.context_locks m !! target = Some false)
          by (apply locks_follow_active; eauto).
        unfold ContextManager.share_context_data in Hcall.
        rewrite Hs in Hcall. unfold ContextManager.lock_of in Hcall.
        rewrite Hl in Hcall. cbn in Hcall. rewrite Hl in Hcall.
        cbn in Hcall. by rewrite lookup_insert_eq in Hcall.
      * rewrite (share_context_data_free m source target keys cs ct) in Hcall
          by (try done; apply locks_follow_active; eauto).
        injection Hcall as <- <- <-. cbn.
        rewrite fmap_insert, <- IH. symmetry. apply insert_id.
        apply locks_follow_active; eauto.
    + unfold ContextManager.share_context_data in Hcall.
      rewrite ?Hs, ?Ht in Hcall. by injection Hcall as <- <- <-.
    + unfold ContextManager.share_context_data in Hcall.
      rewrite ?Hs, ?Ht in Hcall. by injection Hcall as <- <- <-.
    + unfold ContextManager.share_context_data in Hcall.
      rewrite ?Hs, ?Ht in Hcall. by injection Hcall as <- <- <-.
  - done.
  - unfold ContextManager.cleanup_context.
    destruct (ContextManager.active_contexts m !! session); [|done].
    cbn. by rewrite fmap_delete, IH.
  - cbn. by rewrite fmap_empty.
  - unfold ContextManager.create_workflow_context.
    destruct (uuid4 w) as [sid w1], (utcnow w1) as [now w2]. cbn.
    by rewrite fmap_insert, IH.
Qed.

Lemma union_lookup (d1 d2 : Dict) key :
  (d1 ∪ d2) !! key
  = match d1 !! key with Some v => Some v | None => d2 !! key end.
Proof. rewrite lookup_union. by destruct (d1 !! key), (d2 !! key). Qed.

(** In a state of the manager that calls can reach, every active context
    has a free lock of its own, so no call waits: an update returns [True]
    exactly for an active session, a share between two different sessions
    returns [True] exactly when both are active. *)
Theorem reachable_never_blocks m :
  Spec.reachable m →
  Spec.locks_follow m
  ∧ (∀ session updates merge, ∃ b m' trace,
       ContextManager.update_context_state m session updates merge
       = ContextManager.Done b m' trace
       ∧ (b = true ↔ is_Some (ContextManager.get_context m session))
       ∧ Spec.reachable m')
  ∧ (∀ source target keys, source ≠ target → ∃ b m' trace,
       ContextManager.share_context_data m source target keys
       = ContextManager.Done b m' trace
       ∧ (b = true ↔ is_Some (ContextManager.get_context m source)
                     ∧ is_Some (ContextManager.get_context m target))
       ∧ Spec.reachable m').
Proof.
  intros Hm. pose proof (reachable_locks_follow m Hm) as Hinv.
  split; [done|]. unfold ContextManager.get_context. split.
  - intros session updates merge.
    assert (Hex : ∃ b m' trace,
              ContextManager.update_context_state m session updates merge
              = ContextManager.Done b m' trace
              ∧ (b = true ↔ is_Some (ContextManager.active_contexts m !! session))).
    { destruct (ContextManager.active_contexts m !! session) as [c|] eqn:Hc.
      - eexists _, _, _. split.
        + apply (update_context_state_free m session updates merge c Hc).
          apply locks_follow_active; eauto.
        + split; eauto.
      - exists false, m, []. split.
        + unfold ContextManager.update_context_state. by rewrite Hc.
        + split; [done | by intros [? ?]]. }
    destruct Hex as (b & m' & trace & Hcall & Hb).
    exists b, m', trace. split_and!; [done..|]. by eapply Spec.reach_update.
  - intros source target keys Hne.
    assert (Hex : ∃ b m' trace,
              ContextManager.share_context_data m source target keys
              = ContextManager.Done b m' trace
              ∧ (b = true ↔ is_Some (ContextManager.active_contexts m !! source)
                            ∧ is_Some (ContextManager.active_contexts m !! target))).
    { destruct (ContextManager.active_contexts m !! source) as [cs|] eqn:Hs,
        (ContextManager.active_contexts m !! target) as [ct|] eqn:Ht.
      - eexists _, _, _. split.
        + apply (share_context_data_free m source target keys cs ct);
            try done; apply locks_follow_active; eauto.
        + split; eauto.
      - exists false, m, []. split.
        + unfold ContextManager.share_context_data. by rewrite Hs, Ht.
        + split; [done | by intros [_ [? ?]]].
      - exists false, m, []. split.
        + unfold ContextManager.share_context_data. by rewrite Hs.
        + split; [done | by intros [[? ?] _]].
      - exists false, m, []. split.
        + unfold ContextManager.share_context_data. by rewrite Hs.
        + split; [done | by intros [[? ?] _]]. }
    destruct Hex as (b & m' & trace & Hcall & Hb).
    exists b, m', trace. split_and!; [done..|]. by eapply Spec.reach_share.
Qed.

(** What a share writes.  Between two different active sessions, in a
    reachable state, the call returns [True]; afterwards the target holds,
    under every key that the source has and that is shared, the value of
    the source, and its own value under every other key.  All keys are
    shared when [keys] is [None] and also when it is the empty list.  The
    source and every other session are as they were. *)
Theorem share_context_data_copies m source target keys cs ct :
  Spec.reachable m →
  source ≠ target →
  ContextManager.get_context m source = Some cs →
  ContextManager.get_context m target = Some ct →
  ∃ m' state,
    ContextManager.share_context_data m source target keys
    = ContextManager.Done true m'
        [Acquire (SessionLock source); Acquire (SessionLock target);
         Release (SessionLock target); Release (SessionLock source)]
    ∧ ContextManager.get_context m' target
      = Some (AgentContext.with_state ct state)
    ∧ (∀ key,
         state !! key
         = match AgentContext.state cs !! key with
           | Some v =>
               if decide (Spec.shared_key keys key) then Some v
               else AgentContext.state ct !! key
           | None => AgentContext.state ct !! key
           end)
    ∧ (∀ other, other ≠ target →
         ContextManager.get_context m' other = ContextManager.get_context m other)
    ∧ ContextManager.shared_state m' = ContextManager.shared_state m.
Proof.
  unfold ContextManager.get_context. intros Hm Hne Hs Ht.
  pose proof (reachable_locks_follow m Hm) as Hinv.
  eexists _, _. split.
  { apply (share_context_data_free m source target keys cs ct);
      try done; apply locks_follow_active; eauto. }
  cbn [ContextManager.active_contexts ContextManager.shared_state].
  split_and!; [by rewrite lookup_insert_eq| |
                    by intros other Ho; rewrite lookup_insert_ne|done].
  intros key. destruct keys as [[|k ks]|].
  - rewrite union_lookup. by destruct (AgentContext.state cs !! key).
  - rewrite copy_keys_lookup. unfold Spec.shared_key.
    destruct (AgentContext.state cs !! key); by repeat case_decide.
  - rewrite union_lookup. by destruct (AgentContext.state cs !! key).
Qed.

(** What an update writes.  In a reachable state a call for an unknown
    session returns [False] and changes nothing; a call for an active
    session takes and releases the lock of the session, returns [True] and
    leaves in the context the updates over the former state when [merge]
    is set, the updates alone when it is not.  No other context and no
    shared state changes. *)
Theorem update_context_state_writes m session updates merge :
  Spec.reachable m →
  match ContextManager.get_context m session with
  | None =>
      ContextManager.update_context_state m session updates merge
      = ContextManager.Done false m []
  | Some c =>
      ∃ m' state,
        ContextManager.update_context_state m session updates merge
        = ContextManager.Done true m'
            [Acquire (SessionLock session); Release (SessionLock session)]
        ∧ ContextManager.get_context m' session
          = Some (AgentContext.with_state c state)
        ∧ (∀ key,
             state !! key
             = match updates !! key with
               | Some v => Some v
               | None => if merge then AgentContext.state c !! key else None
               end)
        ∧ (∀ other, other ≠ session →
             ContextManager.get_context m' other
             = ContextManager.get_context m other)
        ∧ ContextManager.shared_state m' = ContextManager.shared_state m
  end.
Proof.
  unfold ContextManager.get_context. intros Hm.
  pose proof (reachable_locks_follow m Hm) as Hinv.
  destruct (ContextManager.active_contexts m !! session) as [c|] eqn:Hc.
  - eexists _, _. split.
    { apply (update_context_state_free m session updates merge c Hc).
      apply locks_follow_active; eauto. }
    cbn [ContextManager.active_contexts ContextManager.shared_state].
    split_and!; [by rewrite lookup_insert_eq| |
                 by intros other Ho; rewrite lookup_insert_ne|done].
    intros key. destruct merge.
    + apply union_lookup.
    + by destruct (updates !! key).
  - unfold ContextManager.update_context_state. by rewrite Hc.
Qed.

(** The shared state of a company, written and read back.  After
    [update_shared_state] a read of the same key gives the value written,
    unless the key is the empty string: that key counts as no key, and the
    read gives the whole dictionary of the company.  A read of the whole
    dictionary gives the former one with the new entry; other keys and
    other companies read as before. *)
Theorem shared_state_round_trip m company key value :
  let m' := ContextManager.update_shared_state m company key value in
  let whole :=
    <[key := value]>
      (default ∅ (ContextManager.shared_state m !! company)) in
  ContextManager.get_shared_state m' company (Some key)
  = (if decide (key = "") then VDict whole else value)
  ∧ ContextManager.get_shared_state m' company None = VDict whole
  ∧ (∀ key', key' ≠ key → key' ≠ "" →
       ContextManager.get_shared_state m' company (Some key')
       = ContextManager.get_shared_state m company (Some key'))
  ∧ (∀ company' key', company' ≠ company →
       ContextManager.get_shared_state m' company' key'
       = ContextManager.get_shared_state m company' key')
  ∧ ContextManager.active_contexts m' = ContextManager.active_contexts m
  ∧ ContextManager.context_locks m' = ContextManager.context_locks m.
Proof.
  unfold ContextManager.get_shared_state, ContextManager.update_shared_state.
  cbn [ContextManager.shared_state ContextManager.active_contexts
       ContextManager.context_locks].
  split_and!; [| | | |done|done].
  - rewrite lookup_insert_eq. case_decide as Hk.
    + by subst key.
    + apply String.eqb_neq in Hk. rewrite Hk. cbn.
      unfold dict_get. by rewrite lookup_insert_eq.
  - by rewrite lookup_insert_eq.
  - intros key' Hne Hk. apply String.eqb_neq in Hk.
    rewrite lookup_insert_eq, Hk. cbn. unfold dict_get.
    rewrite lookup_insert_ne by done.
    by destruct (ContextManager.shared_state m !! company).
  - intros company' key' Hne. by rewrite lookup_insert_ne.
Qed.

Lemma cleanup_sessions_spec m sessions n m' :
  ContextManager.cleanup_sessions m sessions = (n, m') →
  (∀ s, ContextManager.active_contexts m' !! s
        = if decide (s ∈ sessions) then None
          else ContextManager.active_contexts m !! s)
  ∧ (∀ s, ContextManager.context_locks m' !! s
          = if decide (s ∈ sessions
                       ∧ is_Some (ContextManager.active_contexts m !! s))
            then None
            else ContextManager.context_locks m !! s)
  ∧ ContextManager.shared_state m' = ContextManager.shared_state m
  ∧ n + Z.of_nat (size (ContextManager.active_contexts m'))
    = Z.of_nat (size (ContextManager.active_contexts m)).
Proof.
  revert m n m'. induction sessions as [|s0 sessions IH]; intros m n m' Hrun.
  { injection Hrun as <- <-. by split_and!. }
  cbn [ContextManager.cleanup_sessions] in Hrun.
  destruct (ContextManager.cleanup_context m s0) as [removed m1] eqn:H1.
  destruct (ContextManager.cleanup_sessions m1 sessions) as [k m2] eqn:H2.
  injection Hrun as <- <-.
  destruct (IH _ _ _ H2) as (Ha & Hl & Hs & Hn).
  unfold ContextManager.cleanup_context in H1.
  destruct (ContextManager.active_contexts m !! s0) as [c0|] eqn:Hc0;
    injection H1 as <- <-.
  - cbn [ContextManager.active_contexts ContextManager.context_locks
         ContextManager.shared_state] in *.
    split_and!; [| |done|].
    + intros s. rewrite Ha.
      destruct (decide (s = s0)) as [->|Hne].
      * rewrite lookup_delete_eq, (decide_True (P := s0 ∈ s0 :: sessions))
          by by left. by case_decide.
      * rewrite lookup_delete_ne by done. apply decide_ext.
        rewrite elem_of_cons. tauto.
    + intros s. rewrite Hl.
      destruct (decide (s = s0)) as [->|Hne].
      * rewrite !lookup_delete_eq.
        rewrite (decide_True
                   (P := s0 ∈ s0 :: sessions
                         ∧ is_Some (ContextManager.active_contexts m !! s0)));
          [by case_decide|]. split; [by left|eauto].
      * rewrite !lookup_delete_ne by done. apply decide_ext.
        rewrite elem_of_cons. tauto.
    + rewrite <- Z.add_assoc, Hn. rewrite map_size_delete, Hc0.
      assert (size (ContextManager.active_contexts m) ≠ 0%nat).
      { intros Hz%map_size_empty_inv. by rewrite Hz in Hc0. }
      lia.
  - split_and!; [| |done|lia].
    + intros s. rewrite Ha.
      destruct (decide (s = s0)) as [->|Hne].
      * rewrite Hc0. by repeat case_decide.
      * apply decide_ext. rewrite elem_of_cons. tauto.
    + intros s. rewrite Hl.
      destruct (decide (s = s0)) as [->|Hne].
      * rewrite Hc0.
        rewrite !decide_False; [done|by intros [_ [? ?]]..].
      * apply decide_ext. rewrite elem_of_cons. tauto.
Qed.

Lemma cleanup_sessions_reachable m sessions :
  Spec.reachable m →
  Spec.reachable (ContextManager.cleanup_sessions m sessions).2.
Proof.
  revert m. induction sessions as [|s0 sessions IH]; intros m Hm; [done|].
  cbn [ContextManager.cleanup_sessions].
  pose proof (Spec.reach_cleanup m s0 Hm) as H1.
  destruct (ContextManager.cleanup_context m s0) as [removed m1].
  specialize (IH m1 H1).
  by destruct (ContextManager.cleanup_sessions m1 sessions) as [k m2].
Qed.

(** What the sweep removes.  Whatever the order in which the dictionary
    yields its items, [cleanup_expired_contexts] removes the contexts
    whose age at the one reading of the clock is greater than the time to
    live, with their locks, and no other; a context whose age is the time
    to live exactly stays.  The count returned is the number of contexts
    removed, and the shared state stays.  With a time to live that is out
    of the range of [timedelta] the call raises when there is a context to
    look at, and removes nothing. *)
Theorem cleanup_expired_contexts_exact m ttl items w :
  items ≡ₚ map_to_list (ContextManager.active_contexts m) →
  let call := ContextManager.cleanup_expired_contexts m ttl items w in
  if timedelta_ok ttl || match items with [] => true | _ :: _ => false end
  then
    ∃ count m',
      call = (Returned (count, m'), (utcnow w).2)
      ∧ (∀ s,
           ContextManager.get_context m' s
           = match ContextManager.get_context m s with
             | Some c =>
                 if decide (ContextManager.expired (utcnow w).1 ttl c)
                 then None else Some c
             | None => None
             end)
      ∧ (∀ s,
           ContextManager.context_locks m' !! s
           = match ContextManager.get_context m s with
             | Some c =>
                 if decide (ContextManager.expired (utcnow w).1 ttl c)
                 then None else ContextManager.context_locks m !! s
             | None => ContextManager.context_locks m !! s
             end)
      ∧ count + Z.of_nat (size (ContextManager.active_contexts m'))
        = Z.of_nat (size (ContextManager.active_contexts m))
      ∧ ContextManager.shared_state m' = ContextManager.shared_state m
      ∧ (Spec.reachable m → Spec.reachable m')
  else call = (Raised (timedelta_overflow ttl), (utcnow w).2).
Proof.
  intros Hitems call. subst call.
  unfold ContextManager.cleanup_expired_contexts, ContextManager.get_context.
  destruct (utcnow w) as [now w1]. cbn [fst snd].
  assert (Hsweep : ∀ sessions count m',
            (∀ s, s ∈ sessions
                  ↔ ∃ c, ContextManager.active_contexts m !! s = Some c
                         ∧ ContextManager.expired now ttl c) →
            ContextManager.cleanup_sessions m sessions = (count, m') →
            (∀ s,
               ContextManager.active_contexts m' !! s
               = match ContextManager.active_contexts m !! s with
                 | Some c =>
                     if decide (ContextManager.expired now ttl c)
                     then None else Some c
                 | None => None
                 end)
            ∧ (∀ s,
                 ContextManager.context_locks m' !! s
                 = match ContextManager.active_contexts m !! s with
                   | Some c =>
                       if decide (ContextManager.expired now ttl c)
                       then None else ContextManager.context_locks m !! s
                   | None => ContextManager.context_locks m !! s
                   end)
            ∧ count + Z.of_nat (size (ContextManager.active_contexts m'))
              = Z.of_nat (size (ContextManager.active_contexts m))
            ∧ ContextManager.shared_state m' = ContextManager.shared_state m
            ∧ (Spec.reachable m → Spec.reachable m')).
  { intros sessions count m' Hin Hrun.
    pose proof (cleanup_sessions_reachable m sessions) as Hreach.
    rewrite Hrun in Hreach.
    destruct (cleanup_sessions_spec _ _ _ _ Hrun) as (Ha & Hl & Hs & Hn).
    split_and!; [| |done..].
    - intros s. rewrite Ha.
      destruct (ContextManager.active_contexts m !! s) as [c|] eqn:Hc.
      + apply decide_ext. rewrite Hin. split; [|by eauto].
        intros (c' & Hc' & Hexp). by simplify_eq.
      + by case_decide.
    - intros s. rewrite Hl.
      destruct (ContextManager.active_contexts m !! s) as [c|] eqn:Hc.
      + apply decide_ext. rewrite Hin. split.
        * intros [(c' & Hc' & Hexp) _]. by simplify_eq.
        * intros Hexp. split; eauto.
      + rewrite decide_False; [done|]. by intros [_ [? ?]]. }
  destruct items as [|item items].
  - rewrite orb_true_r. exists 0, m. split; [done|].
    apply (Hsweep [] 0 m); [|done].
    intros s. split; [by intros ?%elem_of_nil|].
    intros (c & Hc & _). apply elem_of_map_to_list in Hc.
    rewrite <- Hitems in Hc. by apply elem_of_nil in Hc.
  - rewrite orb_false_r.
    destruct (timedelta_ok ttl); [|done].
    set (sessions := (filter _ (item :: items)).*1).
    destruct (ContextManager.cleanup_sessions m sessions) as [count m']
      eqn:Hrun.
    exists count, m'. split; [done|].
    apply (Hsweep sessions); [|done].
    intros s. unfold sessions. rewrite list_elem_of_fmap. split.
    + intros ([s' c] & -> & [Hc Hel]%list_elem_of_filter).
      rewrite Hitems in Hel. apply elem_of_map_to_list in Hel. eauto.
    + intros (c & Hc & Hexp). exists (s, c). split; [done|].
      apply list_elem_of_filter. split; [done|].
      rewrite Hitems. by apply elem_of_map_to_list.
Qed.

(** A context created and cleaned up again.  When the session id drawn is
    not in use, [create_context] stores the context under it with a free
    lock, [cleanup_context] of that id returns [True], and the manager then
    reads as before the two calls: the same contexts, the same locks, the
    same shared state of every company under every key.  The dictionary
    made for the company stays behind. *)
Theorem create_context_cleanup_context m agent user company permissions
    initial_state trace w context m1 w1 :
  ContextManager.create m agent user company permissions initial_state
    trace w = (context, m1, w1) →
  ContextManager.get_context m (AgentContext.session_id context) = None →
  ContextManager.context_locks m !! AgentContext.session_id context = None →
  ContextManager.get_context m1 (AgentContext.session_id context)
  = Some context
  ∧ ContextManager.context_locks m1 !! AgentContext.session_id context
    = Some false
  ∧ is_Some (ContextManager.shared_state m1 !! company)
  ∧ ∃ m2,
      ContextManager.cleanup_context m1 (AgentContext.session_id context)
      = (true, m2)
      ∧ ContextManager.active_contexts m2 = ContextManager.active_contexts m
      ∧ ContextManager.context_locks m2 = ContextManager.context_locks m
      ∧ ContextManager.shared_state m2 = ContextManager.shared_state m1
      ∧ ∀ company' key,
          ContextManager.get_shared_state m2 company' key
          = ContextManager.get_shared_state m company' key.
Proof.
  unfold ContextManager.create, ContextManager.get_context.
  destruct (uuid4 w) as [sid w2], (utcnow w2) as [now w3].
  intros Hrun. injection Hrun as <- <- <-.
  cbn [AgentContext.session_id AgentContext.company_id
       ContextManager.create_context ContextManager.active_contexts
       ContextManager.context_locks ContextManager.shared_state].
  intros Hfresh Hlock.
  split_and!; [by rewrite lookup_insert_eq|by rewrite lookup_insert_eq| |].
  { destruct (ContextManager.shared_state m !! company) eqn:Hc; [eauto|].
    rewrite lookup_insert_eq. eauto. }
  unfold ContextManager.cleanup_context, ContextManager.create_context.
  cbn [ContextManager.active_contexts ContextManager.context_locks
       ContextManager.shared_state AgentContext.session_id
       AgentContext.company_id].
  rewrite lookup_insert_eq. eexists. split; [done|].
  cbn [ContextManager.active_contexts ContextManager.context_locks
       ContextManager.shared_state].
  split_and!; [by rewrite delete_insert_eq, delete_id
              |by rewrite delete_insert_eq, delete_id|done|].
  intros company' key. unfold ContextManager.get_shared_state.
  cbn [ContextManager.shared_state].
  destruct (ContextManager.shared_state m !! company) eqn:Hc; [done|].
  destruct (decide (company' = company)) as [->|Hne].
  - rewrite lookup_insert_eq, Hc. unfold dict_get.
    rewrite lookup_empty. by destruct key as [k|]; [destruct (String.eqb k "")|].
  - by rewrite lookup_insert_ne.
Qed.
End context_manager.

Lemma two_sessions_reachable : Spec.reachable Script.two_sessions.
Proof. repeat constructor. Qed.

Lemma reachable_never_blocks_witness :
  Spec.locks_follow Script.two_sessions
  ∧ ∃ b m' trace,
      ContextManager.share_context_data Script.two_sessions "a" "b" None
      = ContextManager.Done b m' trace
      ∧ (b = true ↔ is_Some (ContextManager.get_context Script.two_sessions "a")
                    ∧ is_Some (ContextManager.get_context Script.two_sessions "b"))
      ∧ Spec.reachable m'.
Proof.
  destruct (reachable_never_blocks Script.two_sessions two_sessions_reachable)
    as (Hinv & _ & Hshare).
  split; [exact Hinv|]. apply Hshare. discriminate.
Defined.


Lemma share_context_data_copies_witness :
  ∃ m' state,
    ContextManager.share_context_data Script.two_sessions "a" "b" (Some [])
    = ContextManager.Done true m'
        [Acquire (SessionLock "a"); Acquire (SessionLock "b");
         Release (SessionLock "b"); Release (SessionLock "a")]
    ∧ ContextManager.get_context m' "b"
      = Some (AgentContext.with_state (Script.session "b" ∅) state)
    ∧ state !! "k" = Some (VInt 1).
Proof.
  destruct (share_context_data_copies Script.two_sessions "a" "b" (Some [])
              (Script.session "a" {["k" := VInt 1]}) (Script.session "b" ∅)
              two_sessions_reachable ltac:(discriminate) eq_refl eq_refl)
    as (m' & state & Hcall & Hget & Hstate & _).
  exists m', state. split; [exact Hcall|]. split; [exact Hget|].
  exact (Hstate "k").
Defined.

Lemma update_context_state_writes_witness :
  ∃ m' state,
    ContextManager.update_context_state Script.two_sessions "a"
      {["j" := VInt 2]} true
    = ContextManager.Done true m'
        [Acquire (SessionLock "a"); Release (SessionLock "a")]
    ∧ ContextManager.get_context m' "a"
      = Some (AgentContext.with_state
                (Script.session "a" {["k" := VInt 1]}) state)
    ∧ state !! "j" = Some (VInt 2)
    ∧ state !! "k" = Some (VInt 1).
Proof.
  destruct (update_context_state_writes Script.two_sessions "a"
              {["j" := VInt 2]} true two_sessions_reachable)
    as (m' & state & Hcall & Hget & Hstate & _).
  exists m', state. split; [exact Hcall|]. split; [exact Hget|].
  split; [exact (Hstate "j") | exact (Hstate "k")].
Defined.

Lemma cleanup_expired_contexts_exact_witness :
  ∃ count m',
    @ContextManager.cleanup_expired_contexts Script.runtime Script.aged 60
      (map_to_list (ContextManager.active_contexts Script.aged))
      Script.sweep_time = (Returned (count, m'), Script.sweep_time)
    ∧ ContextManager.get_context m' "old" = None
    ∧ is_Some (ContextManager.get_context m' "edge")
    ∧ count + Z.of_nat (size (ContextManager.active_contexts m')) = 2.
Proof.
  destruct (@cleanup_expired_contexts_exact Script.runtime Script.aged 60
              (map_to_list (ContextManager.active_contexts Script.aged))
              Script.sweep_time (reflexivity _))
    as (count & m' & Hcall & Hget & _ & Hcount & _).
  exists count, m'. split; [exact Hcall|].
  split; [exact (Hget "old")|].
  split; [rewrite (Hget "edge"); vm_compute; eauto | exact Hcount].
Defined.

Lemma create_context_cleanup_context_witness :
  ∃ context m1 w1 m2,
    @ContextManager.create Script.runtime Script.two_sessions "ai_cfo_agent" "user-1" "acme"
      None None None Script.start = (context, m1, w1)
    ∧ ContextManager.get_context m1 (AgentContext.session_id context)
      = Some context
    ∧ ContextManager.cleanup_context m1 (AgentContext.session_id context)
      = (true, m2)
    ∧ ContextManager.active_contexts m2
      = ContextManager.active_contexts Script.two_sessions.
Proof.
  pose (r := @ContextManager.create Script.runtime Script.two_sessions "ai_cfo_agent"
               "user-1" "acme" None None None Script.start).
  destruct (@create_context_cleanup_context Script.runtime Script.two_sessions "ai_cfo_agent"
              "user-1" "acme" None None None Script.start
              r.1.1 r.1.2 r.2 eq_refl eq_refl eq_refl)
    as (Hget & _ & _ & m2 & Hclean & Hactive & _).
  exists r.1.1, r.1.2, r.2, m2.
  split; [reflexivity|]. split; [exact Hget|]. split; [exact Hclean|].
  exact Hactive.
Defined.

(** ** The orchestrator's routes ([orchestrator.py]) *)

Section routes.
Context `{Runtime}.
Variable render : PyVal → string.
Implicit Types (o : AgentOrchestrator.t) (ws : WorkflowState.t).

Lemma dispatch_keeps o agent_id request context w :
  (AgentOrchestrator.dispatch o agent_id request context w).1.2 = o.
Proof.
  unfold AgentOrchestrator.dispatch.
  destruct (AgentOrchestrator.agents o !! agent_id) as [a|]; [|done].
  case_match; [done|].
  destruct (a _ _ _ _) as [r w']. cbn [fst snd].
  destruct o as [ags wfs run cap n]. unfold AgentOrchestrator.with_count.
  cbn. f_equal. lia.
Qed.

Lemma route_to_agent_keeps o agent_id request context w :
  (AgentOrchestrator._route_to_agent o agent_id request context w).1.2 = o.
Proof.
  unfold AgentOrchestrator._route_to_agent.
  pose proof (dispatch_keeps o agent_id request context w) as Hkeep.
  by destruct (AgentOrchestrator.dispatch o agent_id request context w)
    as [[r o'] w'].
Qed.

Lemma same_identity_trans ws1 ws2 ws3 :
  Spec.same_identity ws1 ws2 → Spec.same_identity ws2 ws3 → Spec.same_identity ws1 ws3.
Proof.
  unfold Spec.same_identity. intros (?&?&?&?) (?&?&?&?). split_and!; congruence.
Qed.

Lemma stage_identity o agent_id prompt key step st :
  Spec.same_identity st.1.2
    (AgentOrchestrator.stage o agent_id prompt key step st).1.2.
Proof.
  destruct st as [[[raised results] ws] w].
  unfold AgentOrchestrator.stage, Spec.same_identity.
  destruct raised; [done|].
  destruct (AgentOrchestrator.agents o !! agent_id) as [a|]; [|done].
  destruct (a _ _ _ _) as [[v|e] w1]; [|done].
  destruct (utcnow w1) as [now w2]. cbn [fst snd].
  unfold WorkflowState.complete_step. by case_bool_decide.
Qed.

Lemma workflow_result_identity wtype prefix st :
  (AgentOrchestrator.workflow_result wtype prefix st).1.2 = st.1.2.
Proof.
  destruct st as [[[raised results] ws] w].
  unfold AgentOrchestrator.workflow_result. by destruct raised.
Qed.

Ltac stages_identity :=
  rewrite workflow_result_identity;
  repeat (eapply same_identity_trans; [|apply stage_identity]);
  by split_and!.

Lemma advisory_identity o ws w :
  Spec.same_identity ws (AgentOrchestrator._execute_advisory_workflow o ws w).1.2.
Proof. unfold AgentOrchestrator._execute_advisory_workflow. stages_identity. Qed.

Lemma transactional_identity o ws w :
  Spec.same_identity ws
    (AgentOrchestrator._execute_transactional_workflow o ws w).1.2.
Proof.
  unfold AgentOrchestrator._execute_transactional_workflow. stages_identity.
Qed.

(** What [_route_to_workflow] leaves in the table (helper).  The registry and the
    counter of running agents are as before, and so is every workflow
    under another id.  Under the id drawn there is a workflow of the type
    asked for, [COMPLETED] without an error when the result has a truthy
    [success], and in [ERROR] otherwise, with the [error] of the result,
    or "Unknown error" when the result has none. *)
Lemma route_to_workflow_outcome o wtype request context w :
  ∃ result o' w' ws,
    AgentOrchestrator._route_to_workflow render o wtype request context w
    = (result, o', w')
    ∧ AgentOrchestrator.agents o' = AgentOrchestrator.agents o
    ∧ AgentOrchestrator._active_agent_count o'
      = AgentOrchestrator._active_agent_count o
    ∧ (∀ other, other ≠ (uuid4 w).1 →
         AgentOrchestrator.active_workflows o' !! other
         = AgentOrchestrator.active_workflows o !! other)
    ∧ AgentOrchestrator.active_workflows o' !! (uuid4 w).1 = Some ws
    ∧ WorkflowState.workflow_id ws = (uuid4 w).1
    ∧ WorkflowState.workflow_type ws = wtype
    ∧ if truthy (dict_get result "success" (VBool false))
      then WorkflowState.status ws = COMPLETED
           ∧ WorkflowState.error ws = None
      else WorkflowState.status ws = ERROR
           ∧ WorkflowState.error ws
             = Some (py_str render
                       (dict_get result "error" (VStr "Unknown error"))).
Proof.
  unfold AgentOrchestrator._route_to_workflow.
  destruct (uuid4 w) as [wid w1]. destruct (utcnow w1) as [t1 w2].
  destruct (utcnow w2) as [t2 w3]. cbn [fst].
  set (ws0 := WorkflowState.mk _ _ _ _ _ _ _ _ _ _ _).
  set (o1 := AgentOrchestrator.with_workflows _ o).
  assert (Hid : ∀ body : Dict * WorkflowState.t * World,
            Spec.same_identity ws0 body.1.2 →
            ∃ result o' w' ws,
              (let '(result, ws, w) := body in
               let '(now, w) := utcnow w in
               let ws :=
                 if truthy (dict_get result "success" (VBool false))
                 then WorkflowState.set_status COMPLETED now ws
                 else WorkflowState.set_error
                        (py_str render
                           (dict_get result "error" (VStr "Unknown error")))
                        now ws in
               (result,
                AgentOrchestrator.with_workflows
                  (<[wid := ws]> (AgentOrchestrator.active_workflows o1)) o1,
                w))
              = (result, o', w')
              ∧ AgentOrchestrator.agents o' = AgentOrchestrator.agents o
              ∧ AgentOrchestrator._active_agent_count o'
                = AgentOrchestrator._active_agent_count o
              ∧ (∀ other, other ≠ wid →
                   AgentOrchestrator.active_workflows o' !! other
                   = AgentOrchestrator.active_workflows o !! other)
              ∧ AgentOrchestrator.active_workflows o' !! wid = Some ws
              ∧ WorkflowState.workflow_id ws = wid
              ∧ WorkflowState.workflow_type ws = wtype
              ∧ if truthy (dict_get result "success" (VBool false))
                then WorkflowState.status ws = COMPLETED
                     ∧ WorkflowState.error ws = None
                else WorkflowState.status ws = ERROR
                     ∧ WorkflowState.error ws
                       = Some (py_str render
                                 (dict_get result "error"
                                    (VStr "Unknown error")))).
  { intros [[result ws] w4] (Hwid & Htype & Hstatus & Herror).
    cbn [fst snd] in *. destruct (utcnow w4) as [now w5].
    eexists _, _, _, _. split; [reflexivity|].
    cbn [AgentOrchestrator.with_workflows AgentOrchestrator.agents
         AgentOrchestrator._active_agent_count
         AgentOrchestrator.active_workflows o1].
    split_and!; [done|done| |by rewrite lookup_insert_eq|..].
    - intros other Hne. by rewrite !lookup_insert_ne.
    - by destruct (truthy _).
    - by destruct (truthy _).
    - destruct (truthy _); cbn; [by rewrite Herror|done]. }
  destruct (String.eqb wtype "advisory");
    [apply Hid, advisory_identity|].
  destruct (String.eqb wtype "transactional");
    [apply Hid, transactional_identity|].
  apply (Hid (WorkflowEngine.failure ("Unknown workflow type: " +:+ wtype),
              ws0, w3)).
  by split_and!.
Qed.

(** What [_route_to_workflow] leaves in the table.  The registry and the
    counter of running agents are as before, and so is every workflow
    under another id.  Under the id drawn there is a workflow of the type
    asked for, [COMPLETED] without an error when the result has a truthy
    [success], and in [ERROR] otherwise, with the [error] of the result,
    or "Unknown error" when the result has none. *)
Theorem route_to_workflow_records_outcome o wtype request context w :
  ∃ result o' w' ws,
    AgentOrchestrator._route_to_workflow render o wtype request context w
    = (result, o', w')
    ∧ AgentOrchestrator.agents o' = AgentOrchestrator.agents o
    ∧ AgentOrchestrator._active_agent_count o'
      = AgentOrchestrator._active_agent_count o
    ∧ (∀ other, other ≠ (uuid4 w).1 →
         AgentOrchestrator.active_workflows o' !! other
         = AgentOrchestrator.active_workflows o !! other)
    ∧ AgentOrchestrator.active_workflows o' !! (uuid4 w).1 = Some ws
    ∧ WorkflowState.workflow_id ws = (uuid4 w).1
    ∧ WorkflowState.workflow_type ws = wtype
    ∧ if truthy (dict_get result "success" (VBool false))
      then WorkflowState.status ws = COMPLETED
           ∧ WorkflowState.error ws = None
      else WorkflowState.status ws = ERROR
           ∧ WorkflowState.error ws
             = Some (py_str render
                       (dict_get result "error" (VStr "Unknown error"))).
Proof. apply route_to_workflow_outcome. Qed.

Lemma stage_returns o agent_id prompt key step results ws w :
  Spec.never_raises o →
  ∃ results' ws' w',
    AgentOrchestrator.stage o agent_id prompt key step (None, results, ws, w)
    = (None, results', ws', w')
    ∧ WorkflowState.steps_completed ws'
      = (WorkflowState.steps_completed ws
         ++ (if bool_decide (is_Some (AgentOrchestrator.agents o !! agent_id)
                             ∧ step ∉ WorkflowState.steps_completed ws)
             then [step] else []))%list.
Proof.
  intros Hnr. unfold AgentOrchestrator.stage.
  destruct (AgentOrchestrator.agents o !! agent_id) as [a|] eqn:Ha.
  - destruct (Hnr agent_id a prompt (WorkflowState.context ws)
                (AgentOrchestrator._active_agent_count o) w Ha)
      as (v & w1 & ->).
    destruct (utcnow w1) as [now w2]. eexists _, _, _. split; [done|].
    unfold WorkflowState.complete_step.
    case_bool_decide as Hin; cbn.
    + rewrite bool_decide_false by (by intros [_ ?]). by rewrite app_nil_r.
    + by rewrite bool_decide_true by eauto.
  - eexists _, _, _. split; [done|].
    rewrite bool_decide_false by (by intros [[? ?] _]). by rewrite app_nil_r.
Qed.

Ltac next_stage Hnr :=
  match goal with
  | |- context [AgentOrchestrator.stage ?o ?a ?p ?k ?s (None, ?r, ?ws, ?w)] =>
      let Hsteps := fresh "Hsteps" in
      destruct (stage_returns o a p k s r ws w Hnr)
        as (? & ? & ? & -> & Hsteps)
  end.

Ltac registered_cases o :=
  repeat match goal with
         | |- context [AgentOrchestrator.agents o !! ?a] =>
             destruct (AgentOrchestrator.agents o !! a)
         end.

Lemma workflow_body_returns o wtype ws w :
  Spec.never_raises o →
  WorkflowState.steps_completed ws = [] →
  ∃ results ws' w',
    (if String.eqb wtype "advisory"
     then AgentOrchestrator._execute_advisory_workflow o ws w
     else AgentOrchestrator._execute_transactional_workflow o ws w)
    = (list_to_map
         [("success", VBool true);
          ("workflow_type",
           VStr (if String.eqb wtype "advisory" then "advisory"
                 else "transactional"));
          ("workflow_id", VStr (WorkflowState.workflow_id ws'));
          ("results", VDict results);
          ("completed_steps",
           VList (VStr <$> WorkflowState.steps_completed ws'))],
       ws', w')
    ∧ WorkflowState.steps_completed ws'
      = (filter (λ st, is_Some (AgentOrchestrator.agents o !! st.1))
           (Spec.workflow_stages
              (if String.eqb wtype "advisory" then "advisory"
               else "transactional"))).*2.
Proof.
  intros Hnr Hnone.
  destruct (String.eqb wtype "advisory").
  - unfold AgentOrchestrator._execute_advisory_workflow.
    do 5 next_stage Hnr. eexists _, _, _. split; [done|].
    rewrite Hsteps3, Hsteps2, Hsteps1, Hsteps0, Hsteps, Hnone.
    clear. change (Spec.workflow_stages "advisory") with
      [("data_sync_agent", "data_sync"); ("ai_cfo_agent", "analysis");
       ("forecasting_agent", "forecasting"); ("alert_agent", "alerts");
       ("reporting_agent", "reporting")].
    rewrite !filter_cons, filter_nil. cbn [fst].
    registered_cases o; by vm_compute.
  - unfold AgentOrchestrator._execute_transactional_workflow.
    do 5 next_stage Hnr. eexists _, _, _. split; [done|].
    rewrite Hsteps3, Hsteps2, Hsteps1, Hsteps0, Hsteps, Hnone.
    clear. change (Spec.workflow_stages "transactional") with
      [("ocr_agent", "ocr_processing"); ("data_sync_agent", "standardization");
       ("accounting_agent", "accounting");
       ("reconciliation_agent", "reconciliation");
       ("compliance_agent", "compliance")].
    rewrite !filter_cons, filter_nil. cbn [fst].
    registered_cases o; by vm_compute.
Qed.

(** The two workflow bodies of the orchestrator report success unless an
    agent raises.  When no registered agent raises, a run of type
    "advisory" or "transactional" answers [success: True] and is left
    [COMPLETED]; its completed steps are the stages whose agent is
    registered, in the order of the body.  What the agents return is not
    looked at, and with no agent registered the run succeeds with no step
    done. *)
Theorem route_to_workflow_succeeds_unless_raise o wtype request context w :
  Spec.never_raises o →
  wtype ∈ ["advisory"; "transactional"] →
  ∃ result o' w' ws,
    AgentOrchestrator._route_to_workflow render o wtype request context w
    = (result, o', w')
    ∧ result !! "success" = Some (VBool true)
    ∧ AgentOrchestrator.active_workflows o' !! (uuid4 w).1 = Some ws
    ∧ WorkflowState.status ws = COMPLETED
    ∧ WorkflowState.steps_completed ws
      = (filter (λ st, is_Some (AgentOrchestrator.agents o !! st.1))
           (Spec.workflow_stages wtype)).*2
    ∧ result !! "completed_steps"
      = Some (VList (VStr <$> WorkflowState.steps_completed ws)).
Proof.
  intros Hnr Htype.
  assert (Hcases : wtype = "advisory" ∨ wtype = "transactional").
  { rewrite !elem_of_cons, elem_of_nil in Htype. tauto. }
  unfold AgentOrchestrator._route_to_workflow.
  destruct (uuid4 w) as [wid w1]. destruct (utcnow w1) as [t1 w2].
  destruct (utcnow w2) as [t2 w3]. cbn [fst].
  set (ws0 := WorkflowState.mk _ _ _ _ _ _ _ _ _ _ _).
  set (o1 := AgentOrchestrator.with_workflows _ o).
  destruct (workflow_body_returns o1 wtype ws0 w3 Hnr eq_refl)
    as (results & ws' & w' & Hbody & Hsteps).
  assert (Hrun :
            (if String.eqb wtype "advisory"
             then AgentOrchestrator._execute_advisory_workflow o1 ws0 w3
             else if String.eqb wtype "transactional"
             then AgentOrchestrator._execute_transactional_workflow o1 ws0 w3
             else (WorkflowEngine.failure ("Unknown workflow type: " +:+ wtype),
                   ws0, w3))
            = (if String.eqb wtype "advisory"
               then AgentOrchestrator._execute_advisory_workflow o1 ws0 w3
               else AgentOrchestrator._execute_transactional_workflow o1 ws0 w3))
    by (by destruct Hcases as [-> | ->]).
  rewrite Hrun, Hbody. clear Hrun Hbody.
  destruct (utcnow w') as [now w4].
  assert (Hsame : (if String.eqb wtype "advisory" then "advisory"
                   else "transactional") = wtype)
    by (by destruct Hcases as [-> | ->]).
  rewrite Hsame in Hsteps.
  eexists _, _, _, _. split; [reflexivity|].
  cbn [AgentOrchestrator.with_workflows AgentOrchestrator.active_workflows].
  split_and!; [done|by rewrite lookup_insert_eq|done|exact Hsteps|done].
Qed.

Lemma route_to_workflow_table o wtype request context w :
  ∃ table,
    (AgentOrchestrator._route_to_workflow render o wtype request context w).1.2
    = AgentOrchestrator.with_workflows table o
    ∧ ∀ wid, is_Some (AgentOrchestrator.active_workflows o !! wid) →
             is_Some (table !! wid).
Proof.
  unfold AgentOrchestrator._route_to_workflow.
  destruct (uuid4 w) as [wid w1]. destruct (utcnow w1) as [t1 w2].
  destruct (utcnow w2) as [t2 w3].
  set (body := if String.eqb wtype "advisory" then _ else _).
  destruct body as [[result ws] w4].
  destruct (utcnow w4) as [now w5]. eexists. split; [reflexivity|].
  intros wid' Hin. cbn [AgentOrchestrator.with_workflows
                          AgentOrchestrator.active_workflows].
  destruct (decide (wid' = wid)) as [->|Hne].
  - rewrite lookup_insert_eq. eauto.
  - by rewrite !lookup_insert_ne.
Qed.

Variable lower : string → string.

Lemma intelligent_routing_keeps o request context w :
  (AgentOrchestrator._intelligent_routing render lower o request context w).1.2
  = o.
Proof.
  unfold AgentOrchestrator._intelligent_routing.
  repeat case_match; apply route_to_agent_keeps.
Qed.

(** What [route_request] never does.  Whatever the request and the route
    taken, the registry, the counter of running agents, the limit and the
    running flag are afterwards as before, and no workflow leaves the
    table.  Without a workflow type the orchestrator as a whole is
    unchanged; so it is when a registered preferred agent is named. *)
Theorem route_request_frame o request context preferred_agent workflow_type
    span_trace_id w :
  let o' :=
    (AgentOrchestrator.route_request render lower o request context
       preferred_agent workflow_type span_trace_id w).1.2 in
  AgentOrchestrator.agents o' = AgentOrchestrator.agents o
  ∧ AgentOrchestrator._active_agent_count o'
    = AgentOrchestrator._active_agent_count o
  ∧ AgentOrchestrator._max_concurrent_agents o'
    = AgentOrchestrator._max_concurrent_agents o
  ∧ AgentOrchestrator._running o' = AgentOrchestrator._running o
  ∧ (∀ wid, is_Some (AgentOrchestrator.active_workflows o !! wid) →
            is_Some (AgentOrchestrator.active_workflows o' !! wid))
  ∧ (workflow_type = None ∨ workflow_type = Some "" → o' = o)
  ∧ (∀ agent_id, preferred_agent = Some agent_id → agent_id ≠ "" →
       is_Some (AgentOrchestrator.agents o !! agent_id) → o' = o).
Proof.
  unfold AgentOrchestrator.route_request.
  set (pair := match context with Some c => _ | None => _ end).
  destruct pair as [context' w0]. cbn zeta.
  match goal with
  | |- context [if ?named && ?known then _ else _] =>
      destruct (named && known) eqn:Hpref
  end.
  { rewrite route_to_agent_keeps. by split_and!. }
  assert (Hunnamed : ∀ agent_id,
            preferred_agent = Some agent_id → agent_id ≠ "" →
            is_Some (AgentOrchestrator.agents o !! agent_id) → False).
  { intros agent_id -> Hne%String.eqb_neq Hin. cbn in Hpref.
    rewrite Hne in Hpref. cbn in Hpref. by case_bool_decide. }
  match goal with
  | |- context [if ?named
                then AgentOrchestrator._route_to_workflow _ _ _ _ _ _
                else _] =>
      destruct named eqn:Htype
  end.
  - destruct (route_to_workflow_table o (default "" workflow_type) request
                context' w0) as (table & -> & Htable).
    split_and!; try done.
    + intros [-> | ->]; discriminate Htype.
    + intros agent_id Hp Hne Hin. destruct (Hunnamed agent_id Hp Hne Hin).
  - rewrite intelligent_routing_keeps. by split_and!.
Qed.

(** The registry, written and read back.  [register_agent] puts the agent
    under its id, in place of any agent that was there: a dispatch to the
    id then runs the new agent, with the counter one higher, and turns its
    return or its exception into the answer.  [unregister_agent] of the id
    then returns [True] and removes the entry: a dispatch to the id is
    answered with the not-found failure, and a second [unregister_agent]
    returns [False]. *)
Theorem register_unregister_round_trip o agent_id (a : AgentOrchestrator.Agent)
    request context w :
  let o1 := AgentOrchestrator.register_agent agent_id a o in
  let o2 := (AgentOrchestrator.unregister_agent agent_id o1).2 in
  let run :=
    a request (Some context) (AgentOrchestrator._active_agent_count o + 1) w in
  (AgentOrchestrator._active_agent_count o
   < AgentOrchestrator._max_concurrent_agents o →
   AgentOrchestrator.dispatch o1 agent_id request context w
   = (match run.1 with
      | Returned v =>
          AgentOrchestrator.Completed (AgentOrchestrator._resolve_result v)
      | Raised e => AgentOrchestrator.ExecutionFailed e
      end, o1, run.2))
  ∧ (AgentOrchestrator.unregister_agent agent_id o1).1 = true
  ∧ AgentOrchestrator.agents o2
    = delete agent_id (AgentOrchestrator.agents o)
  ∧ AgentOrchestrator.dispatch o2 agent_id request context w
    = (AgentOrchestrator.NotFound, o2, w)
  ∧ AgentOrchestrator.unregister_agent agent_id o2 = (false, o2).
Proof.
  cbn zeta. unfold AgentOrchestrator.unregister_agent,
    AgentOrchestrator.register_agent, AgentOrchestrator.dispatch.
  cbn [AgentOrchestrator.agents AgentOrchestrator._active_agent_count
       AgentOrchestrator._max_concurrent_agents
       AgentOrchestrator.with_count].
  rewrite !lookup_insert_eq. cbn [fst snd AgentOrchestrator.agents].
  rewrite delete_insert_eq, !lookup_delete_eq.
  split_and!; try done.
  intros Hroom. rewrite (proj2 (Z.leb_gt _ _) Hroom).
  destruct (a _ _ _ _) as [r w1]. cbn [fst snd].
  unfold AgentOrchestrator.with_count.
  cbn [AgentOrchestrator.agents AgentOrchestrator.active_workflows
       AgentOrchestrator._running AgentOrchestrator._max_concurrent_agents
       AgentOrchestrator._active_agent_count].
  do 3 f_equal. lia.
Qed.
End routes.

Lemma staffed_never_raises cap running :
  Spec.never_raises (Script.staffed cap running).
Proof.
  intros agent_id a request context count w Ha.
  unfold Script.staffed in Ha. cbn [AgentOrchestrator.agents] in Ha.
  apply elem_of_list_to_map_2, list_elem_of_fmap in Ha
    as (who & [= -> ->] & _).
  unfold Script.agent, Script.ok. eauto.
Qed.

Lemma route_to_workflow_succeeds_unless_raise_witness :
  ∃ result o' w' ws,
    AgentOrchestrator._route_to_workflow Script.render (Script.staffed 10 0)
      "advisory" (VStr "quarterly review") Script.context Script.start
    = (result, o', w')
    ∧ result !! "success" = Some (VBool true)
    ∧ AgentOrchestrator.active_workflows o' !! "id-0" = Some ws
    ∧ WorkflowState.status ws = COMPLETED
    ∧ WorkflowState.steps_completed ws
      = ["data_sync"; "analysis"; "forecasting"; "alerts"; "reporting"].
Proof.
  destruct (@route_to_workflow_succeeds_unless_raise Script.runtime
              Script.render (Script.staffed 10 0) "advisory"
              (VStr "quarterly review") Script.context Script.start
              (staffed_never_raises 10 0) ltac:(by left))
    as (result & o' & w' & ws & Hrun & Hok & Hws & Hstatus & Hsteps & _).
  exists result, o', w', ws.
  split; [exact Hrun|]. split; [exact Hok|]. split; [exact Hws|].
  split; [exact Hstatus|]. exact Hsteps.
Defined.
